(** * Track metadata lookup of the Spotify MCP server

    A shallow embedding of the two tools [get_track] and [get_tracks] of
    [src/read.ts], of their parameter schemas, and of the text they
    render, followed by the properties of that text. *)

From Stdlib Require Import ZArith NArith Ascii DecimalString Lia.
From Stdlib Require String.
From stdpp Require Import base list strings.

(** ** JavaScript values as the handlers see them *)

(** A value that may be [undefined] or [null] instead of being there. *)
Inductive nullable (A : Type) : Type :=
| Undefined
| Null
| Value (a : A).
Arguments Undefined {A}.
Arguments Null {A}.
Arguments Value {A} a.

(** [!v] for a value that is an object, [undefined] or [null]: objects are
    truthy. *)
Definition falsy {A} (v : nullable A) : bool :=
  match v with
  | Value _ => false
  | _ => true
  end.

(** [v !== null] *)
Definition not_null {A} (v : nullable A) : bool :=
  match v with
  | Null => false
  | _ => true
  end.

(** [v ?? d] *)
Definition nullish_or {A} (v : nullable A) (d : A) : A :=
  match v with
  | Value a => a
  | _ => d
  end.

(** [v || d] on strings: the empty string is falsy as well. *)
Definition string_or (v : nullable string) (d : string) : string :=
  match v with
  | Value EmptyString => d
  | Value s => s
  | _ => d
  end.

(** The line feed and the double quote of the templates. *)
Definition nl : string := String "010"%char EmptyString.
Definition dq : string := String "034"%char EmptyString.

(** [`${n}`] for a natural number and for an integer. *)
Definition string_of_nat (n : nat) : string :=
  NilZero.string_of_uint (Nat.to_uint n).
Definition string_of_N (n : N) : string :=
  NilZero.string_of_uint (N.to_uint n).
Definition string_of_Z (z : Z) : string :=
  NilZero.string_of_int (Z.to_int z).

(** [`${v}`] for a value that may be missing. *)
Definition interpolate {A} (show : A → string) (v : nullable A) : string :=
  match v with
  | Undefined => "undefined"
  | Null => "null"
  | Value a => show a
  end.

(** [`${xs[i]}`] for an array of strings: out of range reads [undefined]. *)
Definition interpolate_index (xs : list string) (i : nat) : string :=
  match xs !! i with
  | Some s => s
  | None => "undefined"
  end.

(** [xs.join(sep)] on an array of strings. *)
Definition join (sep : string) (xs : list string) : string :=
  String.concat sep xs.
Arguments join : simpl never.

(** [s.toLowerCase()] on the ASCII letters. *)
Definition lower_ascii (c : ascii) : ascii :=
  let n := nat_of_ascii c in
  if (65 <=? n) && (n <=? 90) then ascii_of_nat (n + 32) else c.

Fixpoint toLowerCase (s : string) : string :=
  match s with
  | EmptyString => EmptyString
  | String c s' => String (lower_ascii c) (toLowerCase s')
  end.

(** [s.startsWith(p)] and [s.includes(p)] *)
Definition startsWith (s p : string) : bool := String.prefix p s.

Fixpoint includes (s p : string) : bool :=
  startsWith s p ||
  match s with
  | EmptyString => false
  | String _ s' => includes s' p
  end.

(** ** The records of [src/types.ts] *)

Module SpotifyArtist.
Record t := mk { id : string; name : string }.
End SpotifyArtist.

Module SpotifyAlbum.
Record t := mk { id : string; name : string; artists : list SpotifyArtist.t }.
End SpotifyAlbum.

Module ExternalIds.
Record t := mk { isrc : nullable string }.
End ExternalIds.

Module ExternalUrls.
Record t := mk { spotify : string }.
End ExternalUrls.

(** [SpotifyTrackMetadata]. The interface declares [popularity] a number,
    [preview_url] a string or [null], and [external_ids] and its [isrc]
    optional; the handlers guard all four against a missing value, so the
    model lets each of them be missing. *)
Module SpotifyTrackMetadata.
Record t := mk {
  id : string;
  name : string;
  artists : list SpotifyArtist.t;
  album : SpotifyAlbum.t;
  duration_ms : N;
  explicit : bool;
  popularity : nullable Z;
  preview_url : nullable string;
  external_ids : nullable ExternalIds.t;
  external_urls : ExternalUrls.t
}.
End SpotifyTrackMetadata.

Abbreviation Track := SpotifyTrackMetadata.t.

(** [track.external_ids?.isrc] *)
Definition optional_isrc (ids : nullable ExternalIds.t) : nullable string :=
  match ids with
  | Value e => ExternalIds.isrc e
  | _ => Undefined
  end.

(** The value of a tool: [{ content: [{ type: 'text', text }] }]. *)
Record TextContent := { type : string; text : string }.
Record ToolResult := { content : list TextContent }.

Definition text_result (s : string) : ToolResult :=
  {| content := [ {| type := "text"; text := s |} ] |}.

(** ** Exceptions and the one suspension point *)

(** What a [catch] clause receives: an [Error] with its message, or any
    other value, kept as the string [String(error)] makes of it. *)
Inductive thrown : Type :=
| ErrorObject (message : string)
| OtherValue (as_string : string).

(** [error instanceof Error ? error.message : String(error)] *)
Definition error_text (error : thrown) : string :=
  match error with
  | ErrorObject message => message
  | OtherValue as_string => as_string
  end.

(** How an evaluation ends: with a value, or by throwing. *)
Inductive completion (A : Type) : Type :=
| Normal (a : A)
| Throw (e : thrown).
Arguments Normal {A} a.
Arguments Throw {A} e.

(** The two calls the handlers make on the remote client:
    [spotifyApi.tracks.get(trackId)] and [spotifyApi.tracks.get(trackIds)]. *)
Inductive spotifyE : Type → Type :=
| TracksGet (trackId : string) : spotifyE (nullable Track)
| TracksGetMany (trackIds : list string)
  : spotifyE (nullable (list (nullable Track))).

(** An [async] function body: it has settled, or it awaits a remote call
    and goes on with what the call gave (a value or a rejection). *)
Inductive async (A : Type) : Type :=
| Settled (r : completion A)
| Await {X : Type} (request : spotifyE X) (k : completion X → async A).
Arguments Settled {A} r.
Arguments Await {A X} request k.

(** Sequencing: a rejection skips what follows. *)
Fixpoint bind {A B} (f : A → async B) (m : async A) : async B :=
  match m with
  | Settled (Normal a) => f a
  | Settled (Throw e) => Settled (Throw e)
  | Await request k => Await request (λ r, bind f (k r))
  end.

#[global] Instance async_ret : MRet async := λ A a, Settled (Normal a).
#[global] Instance async_bind : MBind async := λ A B f m, bind f m.

(** [try { m } catch (error) { h error }] *)
Fixpoint try_catch {A} (m : async A) (h : thrown → async A) : async A :=
  match m with
  | Settled (Normal a) => Settled (Normal a)
  | Settled (Throw e) => h e
  | Await request k => Await request (λ r, try_catch (k r) h)
  end.

(** A remote collaborator answers every call with a value or a rejection. *)
Definition collaborator : Type := ∀ X, spotifyE X → completion X.

(** Running a handler against a collaborator: what it settles to, and how
    many remote calls it made. *)
Fixpoint run {A} (remote : collaborator) (m : async A) : completion A :=
  match m with
  | Settled r => r
  | Await request k => run remote (k (remote _ request))
  end.

Fixpoint remote_calls {A} (remote : collaborator) (m : async A) : nat :=
  match m with
  | Settled _ => 0
  | Await request k => S (remote_calls remote (k (remote _ request)))
  end.

(** ** The helpers of [src/utils.ts] *)

(** Modelled from the spec: [handleSpotifyRequest] is in [src/utils.ts],
    which is not among the sources. The spec gives it as
    [runRequest(op) -> result | throws]: the operation runs on the remote
    client and its result, or what it throws, comes back to the caller. *)
Definition handleSpotifyRequest {X} (op : spotifyE X) : async X :=
  Await op Settled.

(** A decimal numeral padded with a zero to width two. *)
Definition pad2 (s : string) : string :=
  match s with
  | String c EmptyString => String "0"%char (String c EmptyString)
  | _ => s
  end.

(** Modelled from the spec: [formatDuration] is in [src/utils.ts] too. The
    spec gives it as: total whole seconds, then [minutes:seconds], the
    seconds padded with a zero to width two and the minutes not padded. *)
Definition formatDuration (ms : N) : string :=
  let total := (ms / 1000)%N in
  let minutes := (total / 60)%N in
  let seconds := (total mod 60)%N in
  string_of_N minutes +:+ ":" +:+ pad2 (string_of_N seconds).

(** ** [get_track] *)

(** The handler of [getTrack]. *)
Definition getTrack_handler (trackId : string) : async ToolResult :=
  try_catch
    (track ← handleSpotifyRequest (TracksGet trackId);
     match track with
     | Undefined | Null =>
         mret (text_result
           ("Track with ID " +:+ dq +:+ trackId +:+ dq +:+ " not found"))
     | Value track =>
         let artists :=
           join ", "
             (SpotifyArtist.name <$> SpotifyTrackMetadata.artists track) in
         let duration :=
           formatDuration (SpotifyTrackMetadata.duration_ms track) in
         let explicit :=
           if SpotifyTrackMetadata.explicit track then "Yes" else "No" in
         let preview :=
           string_or (SpotifyTrackMetadata.preview_url track) "Not available" in
         let isrc :=
           string_or (optional_isrc (SpotifyTrackMetadata.external_ids track))
             "N/A" in
         let popularity :=
           nullish_or (SpotifyTrackMetadata.popularity track) 0%Z in
         mret (text_result
           ("# Track Metadata" +:+ nl +:+ nl +:+
            "**Track**: " +:+ dq +:+ SpotifyTrackMetadata.name track +:+ dq +:+
              nl +:+
            "**Artists**: " +:+ artists +:+ nl +:+
            "**Album**: " +:+
              SpotifyAlbum.name (SpotifyTrackMetadata.album track) +:+ nl +:+
            "**Duration**: " +:+ duration +:+ nl +:+
            "**Popularity**: " +:+ string_of_Z popularity +:+ "/100" +:+ nl +:+
            "**Explicit**: " +:+ explicit +:+ nl +:+
            "**ISRC**: " +:+ isrc +:+ nl +:+
            "**Preview**: " +:+ preview +:+ nl +:+
            "**Spotify URL**: " +:+
              ExternalUrls.spotify
                (SpotifyTrackMetadata.external_urls track) +:+ nl +:+
            "**ID**: " +:+ SpotifyTrackMetadata.id track))
     end)
    (λ error,
       mret (text_result
         ("Error retrieving track metadata: " +:+ error_text error))).

(** ** [get_tracks] *)

(** The callback of [tracks.map((track, index) => ...)]. *)
Definition formatTrack (trackIds : list string) (index : nat)
    (track : nullable Track) : string :=
  match track with
  | Undefined | Null =>
      nl +:+ "[Invalid ID]: " +:+ interpolate_index trackIds index +:+
      " - Track not found"
  | Value track =>
      let artists :=
        join ", " (SpotifyArtist.name <$> SpotifyTrackMetadata.artists track) in
      let duration :=
        formatDuration (SpotifyTrackMetadata.duration_ms track) in
      nl +:+ "## " +:+ string_of_nat (index + 1) +:+ ". " +:+ dq +:+
        SpotifyTrackMetadata.name track +:+ dq +:+ nl +:+
      "**Artists**: " +:+ artists +:+ nl +:+
      "**Album**: " +:+
        SpotifyAlbum.name (SpotifyTrackMetadata.album track) +:+ nl +:+
      "**Duration**: " +:+ duration +:+ nl +:+
      "**Popularity**: " +:+
        interpolate string_of_Z (SpotifyTrackMetadata.popularity track) +:+
        "/100" +:+ nl +:+
      "**ID**: " +:+ SpotifyTrackMetadata.id track
  end.

(** [tracks.map(...)], before the join. *)
Definition formattedBlocks (trackIds : list string)
    (tracks : list (nullable Track)) : list string :=
  imap (formatTrack trackIds) tracks.

(** [tracks.filter((t) => t !== null).length] *)
Definition validCount (tracks : list (nullable Track)) : nat :=
  length (List.filter not_null tracks).

(** The text of the batch response once the remote call gave a non-empty
    array. *)
Definition tracksText (trackIds : list string)
    (tracks : list (nullable Track)) : string :=
  let formattedTracks := join nl (formattedBlocks trackIds tracks) in
  "# Track Metadata (" +:+ string_of_nat (validCount tracks) +:+ " of " +:+
  string_of_nat (length trackIds) +:+ " tracks)" +:+ nl +:+ formattedTracks.

(** The handler of [getTracks]. *)
Definition getTracks_handler (trackIds : list string) : async ToolResult :=
  if length trackIds =? 0 then mret (text_result "No track IDs provided")
  else
    try_catch
      (tracks ← handleSpotifyRequest (TracksGetMany trackIds);
       match tracks with
       | Undefined | Null =>
           mret (text_result "No tracks found for the provided IDs")
       | Value tracks =>
           if length tracks =? 0
           then mret (text_result "No tracks found for the provided IDs")
           else mret (text_result (tracksText trackIds tracks))
       end)
      (λ error,
         mret (text_result
           ("Error retrieving track metadata: " +:+ error_text error))).

(** ** The parameter schemas *)

(** What a caller may pass where the schema expects an argument. *)
#[warnings="-register-all"]
Inductive jsval : Type :=
| JUndefined
| JNull
| JBoolean (b : bool)
| JNumber (n : Z)
| JString (s : string)
| JArray (items : list jsval).

Inductive ZodIssueCode : Type := invalid_type | too_big.

Record ZodIssue := { code : ZodIssueCode; path : list nat }.

Inductive SafeParseReturnType (A : Type) : Type :=
| SafeParseSuccess (data : A)
| SafeParseError (issues : list ZodIssue).
Arguments SafeParseSuccess {A} data.
Arguments SafeParseError {A} issues.

(** The part of zod the two schemas use: [z.string()], [z.array(element)]
    and [.max(n)] on an array schema. A schema parses a value found at a
    path; an array reports its own size first and then what its elements
    report, each under its index. *)
Module z.
Definition ZodType (A : Type) : Type :=
  list nat → jsval → SafeParseReturnType A.

Record ZodArray (A : Type) : Type :=
  { element : ZodType A; maxLength : option nat }.
Arguments element {A} _.
Arguments maxLength {A} _.

Definition array {A} (element : ZodType A) : ZodArray A :=
  {| element := element; maxLength := None |}.

Definition max {A} (maxLength : nat) (schema : ZodArray A) : ZodArray A :=
  {| element := element schema; maxLength := Some maxLength |}.

Definition size_issues (maxLength : option nat) (path : list nat)
    (items : list jsval) : list ZodIssue :=
  match maxLength with
  | Some n =>
      if n <? length items then [ {| code := too_big; path := path |} ]
      else []
  | None => []
  end.

Definition issues_of {A} (r : SafeParseReturnType A) : list ZodIssue :=
  match r with
  | SafeParseSuccess _ => []
  | SafeParseError issues => issues
  end.

Definition data_of {A} (r : SafeParseReturnType A) : list A :=
  match r with
  | SafeParseSuccess data => [data]
  | SafeParseError _ => []
  end.

Definition parse_array {A} (schema : ZodArray A) : ZodType (list A) :=
  λ path input,
    match input with
    | JArray items =>
        let results :=
          imap (λ i item, element schema (path ++ [i]) item) items in
        match size_issues (maxLength schema) path items
              ++ concat (issues_of <$> results) with
        | [] => SafeParseSuccess (concat (data_of <$> results))
        | issues => SafeParseError issues
        end
    | _ => SafeParseError [ {| code := invalid_type; path := path |} ]
    end.

Definition safeParse {A} (schema : ZodType A) (input : jsval)
    : SafeParseReturnType A :=
  schema [] input.

Definition string : ZodType String.string :=
  λ path input,
    match input with
    | JString s => SafeParseSuccess s
    | _ => SafeParseError [ {| code := invalid_type; path := path |} ]
    end.
End z.

(** [getTrack.schema.trackId] and [getTracks.schema.trackIds]; [describe]
    only attaches a text. *)
Definition getTrack_schema_trackId : z.ZodType string := z.string.

Definition getTracks_schema_trackIds : z.ZodType (list string) :=
  z.parse_array (z.max 50 (z.array z.string)).

(** Modelled from the spec: the registration of the tools is in
    [src/index.ts], which is not among the sources. The spec has the
    schema checked at the boundary before the handler runs: a rejected
    argument ends the invocation with the validation failure, an accepted
    one starts the handler on the parsed value. *)
Inductive invocation : Type :=
| Rejected (issues : list ZodIssue)
| Started (body : async ToolResult).

(** Modelled from the spec: the schema of [trackId] is checked, then the
    handler of [get_track] starts. *)
Definition invoke_get_track (trackId : jsval) : invocation :=
  match z.safeParse getTrack_schema_trackId trackId with
  | SafeParseError issues => Rejected issues
  | SafeParseSuccess trackId => Started (getTrack_handler trackId)
  end.

(** Modelled from the spec: the schema of [trackIds] is checked, then the
    handler of [get_tracks] starts. *)
Definition invoke_get_tracks (trackIds : jsval) : invocation :=
  match z.safeParse getTracks_schema_trackIds trackIds with
  | SafeParseError issues => Rejected issues
  | SafeParseSuccess trackIds => Started (getTracks_handler trackIds)
  end.

(** The remote calls of an invocation: none when it was rejected. *)
Definition invocation_calls (remote : collaborator) (i : invocation) : nat :=
  match i with
  | Rejected _ => 0
  | Started body => remote_calls remote body
  end.

(** ** The renderings as the specification lays them out *)

(** The error block of both tools. *)
Definition error_result (error : thrown) : ToolResult :=
  text_result ("Error retrieving track metadata: " +:+ error_text error).

(** The not-found line of the single lookup. *)
Definition not_found_text (trackId : string) : string :=
  "Track with ID " +:+ dq +:+ trackId +:+ dq +:+ " not found".

Definition artist_names (track : Track) : string :=
  join ", " (SpotifyArtist.name <$> SpotifyTrackMetadata.artists track).

(** The ten lines of the single-item rendering. *)
Definition single_lines (track : Track) : list string :=
  [ "**Track**: " +:+ dq +:+ SpotifyTrackMetadata.name track +:+ dq;
    "**Artists**: " +:+ artist_names track;
    "**Album**: " +:+ SpotifyAlbum.name (SpotifyTrackMetadata.album track);
    "**Duration**: " +:+
      formatDuration (SpotifyTrackMetadata.duration_ms track);
    "**Popularity**: " +:+
      string_of_Z (nullish_or (SpotifyTrackMetadata.popularity track) 0%Z) +:+
      "/100";
    "**Explicit**: " +:+
      (if SpotifyTrackMetadata.explicit track then "Yes" else "No");
    "**ISRC**: " +:+
      string_or (optional_isrc (SpotifyTrackMetadata.external_ids track))
        "N/A";
    "**Preview**: " +:+
      string_or (SpotifyTrackMetadata.preview_url track) "Not available";
    "**Spotify URL**: " +:+
      ExternalUrls.spotify (SpotifyTrackMetadata.external_urls track);
    "**ID**: " +:+ SpotifyTrackMetadata.id track ].

(** The header line of a batch response. *)
Definition batch_header (validCount total : nat) : string :=
  "# Track Metadata (" +:+ string_of_nat validCount +:+ " of " +:+
  string_of_nat total +:+ " tracks)".

(** The slots of a result array that are not [null]. *)
Fixpoint non_null_slots (tracks : list (nullable Track)) : nat :=
  match tracks with
  | [] => 0
  | Null :: rest => non_null_slots rest
  | _ :: rest => S (non_null_slots rest)
  end.

(** The slots of a result array that hold a record. *)
Fixpoint records (tracks : list (nullable Track)) : nat :=
  match tracks with
  | [] => 0
  | Value _ :: rest => S (records rest)
  | _ :: rest => records rest
  end.

(** The slots of a result array that are [undefined]: falsy, and not
    [null]. *)
Fixpoint undefined_slots (tracks : list (nullable Track)) : nat :=
  match tracks with
  | [] => 0
  | Undefined :: rest => S (undefined_slots rest)
  | _ :: rest => undefined_slots rest
  end.

(** The two markers of a batch response: the numbered heading of a found
    block and the opening of an absent line. *)
Definition found_marker (k : nat) : string :=
  "## " +:+ string_of_nat k +:+ ".".

Definition invalid_marker (id : string) : string :=
  "[Invalid ID]: " +:+ id.

(** A found block numbered [k]: its heading and five labelled lines. *)
Definition found_lines (k : nat) (track : Track) : list string :=
  [ found_marker k +:+ " " +:+ dq +:+ SpotifyTrackMetadata.name track +:+ dq;
    "**Artists**: " +:+ artist_names track;
    "**Album**: " +:+ SpotifyAlbum.name (SpotifyTrackMetadata.album track);
    "**Duration**: " +:+
      formatDuration (SpotifyTrackMetadata.duration_ms track);
    "**Popularity**: " +:+
      interpolate string_of_Z (SpotifyTrackMetadata.popularity track) +:+
      "/100";
    "**ID**: " +:+ SpotifyTrackMetadata.id track ].

Definition found_block (k : nat) (track : Track) : string :=
  join nl (found_lines k track).

(** The line of an absent slot. *)
Definition absent_line (id : string) : string :=
  invalid_marker id +:+ " - Track not found".

(** What position [k] (counted from one) of a batch shows for the
    identifier [id]: the found block of a record, the absent line
    otherwise. *)
Definition slot_block (k : nat) (id : string) (slot : nullable Track)
    : string :=
  match slot with
  | Value track => found_block k track
  | Null | Undefined => absent_line id
  end.

(** The found blocks among the blocks of a response body: those that open
    with a heading. *)
Definition found_blocks (blocks : list string) : nat :=
  length (List.filter (λ block, startsWith block (nl +:+ "## ")) blocks).

(** ** Sample data *)

Definition sample_artists : list SpotifyArtist.t :=
  [ SpotifyArtist.mk "6sFIWsNpZYqfjUpaCgueju" "Carly Rae Jepsen" ].

Definition sample_album : SpotifyAlbum.t :=
  SpotifyAlbum.mk "1DFixLWuPkv3KT3TnV35m3" "Emotion: Side B" sample_artists.

Definition sample_track : Track :=
  SpotifyTrackMetadata.mk "11dFghVXANMlKmJXsNCbNl" "Cut To The Feeling"
    sample_artists sample_album 225000 false (Value 85%Z) Null
    (Value (ExternalIds.mk (Value "USUM71703861")))
    (ExternalUrls.mk "https://open.spotify.com/track/11dFghVXANMlKmJXsNCbNl").


(** A collaborator with one fixed answer per kind of call. *)
Definition answering (one : completion (nullable Track))
    (many : completion (nullable (list (nullable Track)))) : collaborator :=
  λ X request,
    match request in spotifyE X return completion X with
    | TracksGet _ => one
    | TracksGetMany _ => many
    end.

Definition sample_ids : list string :=
  [ "11dFghVXANMlKmJXsNCbNl"; "invalid-id-1" ].

Definition sample_slots : list (nullable Track) :=
  [ Value sample_track; Null ].

Definition sample_remote : collaborator :=
  answering (Normal (Value sample_track)) (Normal (Value sample_slots)).

Definition sample_remote_null : collaborator :=
  answering (Normal Null) (Normal Null).


(** An identifier that resolves, followed by one that does not and that
    begins with the first. *)
Definition overlapping_ids : list string :=
  [ "11dFghVXANMlKmJXsNCbNl"; "11dFghVXANMlKmJXsNCbNl0" ].

Definition overlapping_slots : list (nullable Track) :=
  [ Value sample_track; Null ].

Definition overlapping_remote : collaborator :=
  answering (Normal Null) (Normal (Value overlapping_slots)).

(** The same identifier twice, resolved the first time only. *)
Definition repeated_ids : list string :=
  [ "11dFghVXANMlKmJXsNCbNl"; "11dFghVXANMlKmJXsNCbNl" ].

(** A result array with a hole: a record and an [undefined] slot. *)
Definition slots_with_hole : list (nullable Track) :=
  [ Value sample_track; Undefined ].

Definition remote_with_hole : collaborator :=
  answering (Normal Null) (Normal (Value slots_with_hole)).

Definition failing_remote : collaborator :=
  answering (Throw (ErrorObject "Bad OAuth request"))
            (Throw (ErrorObject "Bad OAuth request")).

(** * The other read tools of [src/read.ts] *)

(** The remote calls of a handler body, in the order it makes them. *)
Fixpoint requests {A} (remote : collaborator) (m : async A)
    : list { X : Type & spotifyE X } :=
  match m with
  | Settled _ => []
  | Await request k =>
      existT _ request :: requests remote (k (remote _ request))
  end.

(** The slots of a result array that are [null]. *)
Fixpoint null_slots (tracks : list (nullable Track)) : nat :=
  match tracks with
  | [] => 0
  | Null :: rest => S (null_slots rest)
  | _ :: rest => null_slots rest
  end.

(** A record whose preview and ISRC are there, but empty. *)
Definition sample_track_empty_fields : Track :=
  SpotifyTrackMetadata.mk "11dFghVXANMlKmJXsNCbNl" "Cut To The Feeling"
    sample_artists sample_album 225000 false (Value 85%Z)
    (Value EmptyString) (Value (ExternalIds.mk (Value EmptyString)))
    (ExternalUrls.mk "https://open.spotify.com/track/11dFghVXANMlKmJXsNCbNl").

(** A result array longer than the batch of [sample_ids]. *)
Definition long_slots : list (nullable Track) :=
  [ Value sample_track; Null; Null ].

(** The absent lines among the blocks of a batch response. *)
Definition absent_blocks (blocks : list string) : nat :=
  length
    (List.filter (λ block, startsWith block (nl +:+ "[Invalid ID]: ")) blocks).

Module Read.

(** ** What the remote client gives *)

(** [z.enum(['track', 'album', 'artist', 'playlist'])] *)
Inductive SearchType : Type :=
| SearchTrack
| SearchAlbum
| SearchArtist
| SearchPlaylist.

(** The string a search type is. *)
Definition type_name (type : SearchType) : string :=
  match type with
  | SearchTrack => "track"
  | SearchAlbum => "album"
  | SearchArtist => "artist"
  | SearchPlaylist => "playlist"
  end.

(** A page of results: the handlers read its items and its total. *)
Module Page.
Record t (A : Type) : Type := mk { items : list A; total : Z }.
Arguments mk {A} items total.
Arguments items {A} _.
Arguments total {A} _.
End Page.

Module Owner.
Record t := mk { display_name : nullable string }.
End Owner.

Module TracksRef.
Record t := mk { total : nullable Z }.
End TracksRef.

(** A playlist as the search and the playlist list read it: both guard
    its name, and the search guards the playlist itself, its description
    and its owner. *)
Module Playlist.
Record t := mk {
  id : string;
  name : nullable string;
  description : nullable string;
  owner : nullable Owner.t;
  tracks : nullable TracksRef.t
}.
End Playlist.

Module SearchResults.
Record t := mk {
  tracks : nullable (Page.t Track);
  albums : nullable (Page.t SpotifyAlbum.t);
  artists : nullable (Page.t SpotifyArtist.t);
  playlists : nullable (Page.t (nullable Playlist.t))
}.
End SearchResults.

(** The album of a playable item, as far as [isTrack] looks. *)
Module AlbumRef.
Record t := mk { name : nullable string }.
End AlbumRef.

(** What a playlist, the player or the library holds: a track or an
    episode. [isTrack] inspects its [type], [artists] and [album]; an
    episode has neither artists nor album. *)
Module PlayableItem.
Record t := mk {
  id : string;
  name : string;
  type : string;
  duration_ms : N;
  artists : nullable (list SpotifyArtist.t);
  album : nullable AlbumRef.t
}.
End PlayableItem.

Module PlaylistedTrack.
Record t := mk { track : nullable PlayableItem.t; added_at : string }.
End PlaylistedTrack.

Module PlayHistory.
Record t := mk { track : nullable PlayableItem.t; played_at : nullable string }.
End PlayHistory.

(** The items of a playlist; the handler guards against missing items. *)
Module PlaylistItems.
Record t := mk { items : nullable (list PlaylistedTrack.t); total : Z }.
End PlaylistItems.

Module Device.
Record t := mk {
  id : nullable string;
  is_active : bool;
  is_restricted : bool;
  name : string;
  type : string;
  volume_percent : nullable Z
}.
End Device.

Module Devices.
Record t := mk { devices : nullable (list Device.t) }.
End Devices.

Module PlaybackState.
Record t := mk {
  item : nullable PlayableItem.t;
  progress_ms : nullable N;
  is_playing : bool;
  device : nullable Device.t;
  shuffle_state : bool;
  repeat_state : nullable string
}.
End PlaybackState.

(** An entry of the queue, read as [any]: every field may be missing. *)
Module QueueItem.
Record t := mk {
  id : nullable string;
  name : nullable string;
  duration_ms : nullable N;
  artists : nullable (list SpotifyArtist.t)
}.
End QueueItem.

Module Queue.
Record t := mk {
  currently_playing : nullable QueueItem.t;
  queue : nullable (list (nullable QueueItem.t))
}.
End Queue.

(** The audio features of a track. The numbers that are measures are of
    a type of their own, [number]; the three that are codes are
    integers. *)
Module AudioFeatures.
Record t (number : Type) : Type := mk {
  tempo : nullable number;
  time_signature : nullable Z;
  key : nullable Z;
  mode : nullable Z;
  danceability : nullable number;
  energy : nullable number;
  loudness : nullable number;
  speechiness : nullable number;
  acousticness : nullable number;
  instrumentalness : nullable number;
  liveness : nullable number;
  valence : nullable number
}.
Arguments mk {number}.
Arguments tempo {number} _.
Arguments time_signature {number} _.
Arguments key {number} _.
Arguments mode {number} _.
Arguments danceability {number} _.
Arguments energy {number} _.
Arguments loudness {number} _.
Arguments speechiness {number} _.
Arguments acousticness {number} _.
Arguments instrumentalness {number} _.
Arguments liveness {number} _.
Arguments valence {number} _.
End AudioFeatures.

(** ** Remote calls and handler bodies *)

(** The calls of the other read tools, with the arguments the handlers
    pass. *)
Inductive readE : Type → Type :=
| Search (query : string) (types : list SearchType) (limit : Z)
  : readE SearchResults.t
| GetPlaybackState : readE (nullable PlaybackState.t)
| Playlists (limit : Z) : readE (Page.t Playlist.t)
| GetPlaylistItems (playlistId : string) (limit offset : Z)
  : readE PlaylistItems.t
| GetRecentlyPlayedTracks (limit : Z) : readE (Page.t PlayHistory.t)
| SavedTracks (limit offset : Z) : readE (Page.t PlaylistedTrack.t)
| GetUsersQueue : readE (nullable Queue.t)
| GetAvailableDevices : readE Devices.t.

(** The one call of [test_audio_features]. *)
Inductive audioE (number : Type) : Type → Type :=
| TracksAudioFeatures (trackId : string)
  : audioE number (nullable (AudioFeatures.t number)).
Arguments TracksAudioFeatures {number} trackId.

(** An [async] function body over a family of calls [E]. *)
Inductive task (E : Type → Type) (A : Type) : Type :=
| Finished (r : completion A)
| Request {X : Type} (request : E X) (k : completion X → task E A).
Arguments Finished {E A} r.
Arguments Request {E A X} request k.

(** Sequencing: a rejection skips what follows. *)
Fixpoint bind {E A B} (f : A → task E B) (m : task E A) : task E B :=
  match m with
  | Finished (Normal a) => f a
  | Finished (Throw e) => Finished (Throw e)
  | Request request k => Request request (λ r, bind f (k r))
  end.

#[global] Instance task_ret {E} : MRet (task E) :=
  λ A a, Finished (Normal a).
#[global] Instance task_bind {E} : MBind (task E) := λ A B f m, bind f m.

(** [try { m } catch (error) { h error }] *)
Fixpoint try_catch {E A} (m : task E A) (h : thrown → task E A)
    : task E A :=
  match m with
  | Finished (Normal a) => Finished (Normal a)
  | Finished (Throw e) => h e
  | Request request k => Request request (λ r, try_catch (k r) h)
  end.

Definition collaborator (E : Type → Type) : Type :=
  ∀ X, E X → completion X.

Fixpoint run {E A} (remote : collaborator E) (m : task E A) : completion A :=
  match m with
  | Finished r => r
  | Request request k => run remote (k (remote _ request))
  end.

(** The remote calls of a handler body, in the order it makes them. *)
Fixpoint requests {E A} (remote : collaborator E) (m : task E A)
    : list { X : Type & E X } :=
  match m with
  | Finished _ => []
  | Request request k =>
      existT _ request :: requests remote (k (remote _ request))
  end.

(** Modelled from the spec: [handleSpotifyRequest] of [src/utils.ts], as
    above, on the calls of these tools. *)
Definition handleSpotifyRequest {E X} (op : E X) : task E X :=
  Request op Finished.

(** ** [isTrack] *)

(** [Array.isArray(v)] and [typeof v === 'string'] on a field that holds
    an array, or a string, when it is there. *)
Definition is_present {A} (v : nullable A) : bool := negb (falsy v).

(** [isTrack(item)] for an item that is there: the truth of
    [item.type === 'track' && Array.isArray(item.artists) && item.album &&
     typeof item.album.name === 'string']. *)
Definition isTrack (item : PlayableItem.t) : bool :=
  String.eqb (PlayableItem.type item) "track"
  && is_present (PlayableItem.artists item)
  && match PlayableItem.album item with
     | Value album => is_present (AlbumRef.name album)
     | _ => false
     end.

(** [item.artists.map((a) => a.name).join(', ')], reached only behind
    [isTrack], where the artists are an array. *)
Definition item_artists (item : PlayableItem.t) : string :=
  match PlayableItem.artists item with
  | Value artists => join ", " (SpotifyArtist.name <$> artists)
  | _ => EmptyString
  end.

(** ** [searchSpotify] *)

Definition search_track_line (i : nat) (track : Track) : string :=
  let artists :=
    join ", " (SpotifyArtist.name <$> SpotifyTrackMetadata.artists track) in
  let duration := formatDuration (SpotifyTrackMetadata.duration_ms track) in
  string_of_nat (i + 1) +:+ ". " +:+ dq +:+ SpotifyTrackMetadata.name track +:+
  dq +:+ " by " +:+ artists +:+ " (" +:+ duration +:+ ") - ID: " +:+
  SpotifyTrackMetadata.id track.

Definition search_album_line (i : nat) (album : SpotifyAlbum.t) : string :=
  let artists :=
    join ", " (SpotifyArtist.name <$> SpotifyAlbum.artists album) in
  string_of_nat (i + 1) +:+ ". " +:+ dq +:+ SpotifyAlbum.name album +:+ dq +:+
  " by " +:+ artists +:+ " - ID: " +:+ SpotifyAlbum.id album.

Definition search_artist_line (i : nat) (artist : SpotifyArtist.t) : string :=
  string_of_nat (i + 1) +:+ ". " +:+ SpotifyArtist.name artist +:+
  " - ID: " +:+ SpotifyArtist.id artist.

(** [playlist?.f] *)
Definition optional {A B} (f : A → nullable B) (v : nullable A) : nullable B :=
  match v with
  | Value a => f a
  | _ => Undefined
  end.

Definition search_playlist_line (i : nat) (playlist : nullable Playlist.t)
    : string :=
  string_of_nat (i + 1) +:+ ". " +:+ dq +:+
  nullish_or (optional Playlist.name playlist) "Unknown Playlist" +:+ " (" +:+
  nullish_or (optional Playlist.description playlist) "No description" +:+
  " tracks)" +:+ dq +:+ " by " +:+
  interpolate id
    (optional Owner.display_name (optional Playlist.owner playlist)) +:+
  " - ID: " +:+
  interpolate id (optional (λ p, Value (Playlist.id p)) playlist).

(** The page the handler renders: the one of the requested type, when it
    is there; the pages of the other types are not looked at. *)
Definition formattedResults (type : SearchType) (results : SearchResults.t)
    : string :=
  match type with
  | SearchTrack =>
      match SearchResults.tracks results with
      | Value page => join nl (imap search_track_line (Page.items page))
      | _ => EmptyString
      end
  | SearchAlbum =>
      match SearchResults.albums results with
      | Value page => join nl (imap search_album_line (Page.items page))
      | _ => EmptyString
      end
  | SearchArtist =>
      match SearchResults.artists results with
      | Value page => join nl (imap search_artist_line (Page.items page))
      | _ => EmptyString
      end
  | SearchPlaylist =>
      match SearchResults.playlists results with
      | Value page => join nl (imap search_playlist_line (Page.items page))
      | _ => EmptyString
      end
  end.

(** The number of items of a page that may be missing. *)
Definition page_size {A} (page : nullable (Page.t A)) : nat :=
  match page with
  | Value page => length (Page.items page)
  | _ => 0
  end.

(** The number of items the remote call gave for the requested type. *)
Definition requested_items (type : SearchType) (results : SearchResults.t)
    : nat :=
  match type with
  | SearchTrack => page_size (SearchResults.tracks results)
  | SearchAlbum => page_size (SearchResults.albums results)
  | SearchArtist => page_size (SearchResults.artists results)
  | SearchPlaylist => page_size (SearchResults.playlists results)
  end.

(** The handler of [searchSpotify]; a missing [limit] is ten. *)
Definition searchSpotify_handler (query : string) (type : SearchType)
    (limit : option Z) : task readE ToolResult :=
  let limitValue := default 10%Z limit in
  try_catch
    (results ← handleSpotifyRequest (Search query [type] limitValue);
     let formattedResults := formattedResults type results in
     mret (text_result
       (if 0 <? String.length formattedResults
        then "# Search results for " +:+ dq +:+ query +:+ dq +:+ " (type: " +:+
             type_name type +:+ ")" +:+ nl +:+ nl +:+ formattedResults
        else "No " +:+ type_name type +:+ " results found for " +:+ dq +:+
             query +:+ dq)))
    (λ error,
       mret (text_result
         ("Error searching for " +:+ type_name type +:+ "s: " +:+
          error_text error))).

(** ** [getNowPlaying] *)

(** [device?.volume_percent !== null && device?.volume_percent !==
    undefined ? `${device.volume_percent}%` : 'N/A'] *)
Definition playback_volume (device : nullable Device.t) : string :=
  match optional Device.volume_percent device with
  | Value volume => string_of_Z volume +:+ "%"
  | _ => "N/A"
  end.

Definition getNowPlaying_handler : task readE ToolResult :=
  try_catch
    (playback ← handleSpotifyRequest GetPlaybackState;
     match optional PlaybackState.item playback, playback with
     | Value item, Value playback =>
         if negb (isTrack item)
         then mret (text_result
           "Currently playing item is not a track (might be a podcast episode)")
         else
           let artists := item_artists item in
           let album :=
             interpolate id
               (optional AlbumRef.name (PlayableItem.album item)) in
           let duration := formatDuration (PlayableItem.duration_ms item) in
           let progress :=
             formatDuration
               (nullish_or (PlaybackState.progress_ms playback) 0%N) in
           let isPlaying := PlaybackState.is_playing playback in
           let device := PlaybackState.device playback in
           let deviceInfo :=
             match device with
             | Value device =>
                 Device.name device +:+ " (" +:+ Device.type device +:+ ")"
             | _ => "Unknown device"
             end in
           let volume := playback_volume device in
           let shuffle :=
             if PlaybackState.shuffle_state playback then "On" else "Off" in
           let repeat :=
             string_or (PlaybackState.repeat_state playback) "off" in
           mret (text_result
             ("# Currently " +:+ (if isPlaying then "Playing" else "Paused") +:+
                nl +:+ nl +:+
              "**Track**: " +:+ dq +:+ PlayableItem.name item +:+ dq +:+ nl +:+
              "**Artist**: " +:+ artists +:+ nl +:+
              "**Album**: " +:+ album +:+ nl +:+
              "**Progress**: " +:+ progress +:+ " / " +:+ duration +:+ nl +:+
              "**ID**: " +:+ PlayableItem.id item +:+ nl +:+ nl +:+
              "**Device**: " +:+ deviceInfo +:+ nl +:+
              "**Volume**: " +:+ volume +:+ nl +:+
              "**Shuffle**: " +:+ shuffle +:+ " | **Repeat**: " +:+ repeat))
     | _, _ => mret (text_result "Nothing is currently playing on Spotify")
     end)
    (λ error,
       mret (text_result
         ("Error getting current track: " +:+ error_text error))).

(** ** [getMyPlaylists] *)

(** [playlist.tracks?.total ? playlist.tracks.total : 0] *)
Definition tracksTotal (playlist : Playlist.t) : Z :=
  match optional TracksRef.total (Playlist.tracks playlist) with
  | Value total => if (total =? 0)%Z then 0%Z else total
  | _ => 0%Z
  end.

Definition playlist_line (i : nat) (playlist : Playlist.t) : string :=
  string_of_nat (i + 1) +:+ ". " +:+ dq +:+
  interpolate id (Playlist.name playlist) +:+ dq +:+ " (" +:+
  string_of_Z (tracksTotal playlist) +:+ " tracks) - ID: " +:+
  Playlist.id playlist.

(** The handler of [getMyPlaylists]; a missing [limit] is fifty. Nothing
    catches what the remote call throws. *)
Definition getMyPlaylists_handler (limit : option Z) : task readE ToolResult :=
  let limit := default 50%Z limit in
  playlists ← handleSpotifyRequest (Playlists limit);
  if length (Page.items playlists) =? 0
  then mret (text_result "You don't have any playlists on Spotify")
  else
    let formattedPlaylists :=
      join nl (imap playlist_line (Page.items playlists)) in
    mret (text_result
      ("# Your Spotify Playlists" +:+ nl +:+ nl +:+ formattedPlaylists)).

(** ** Numbers *)

(** The numbers of the source are double-precision floats: their sums are
    rounded, and their text is not always a row of digits. The two paged
    lists below add an index to the [offset] of the page and write the
    sum in a template, so they are given over the numbers of the
    language: [of_Z z] is the number of the integer [z] (the [offset] and
    the [total] of a page are integers, an index and a length are), [plus]
    is the addition [+] on numbers and [toString] the text of a number in
    a template. *)
Module Number.
Record ops := mk {
  t : Type;
  of_Z : Z → t;
  plus : t → t → t;
  toString : t → string;
}.

(** [Number.MAX_SAFE_INTEGER] *)
Definition MAX_SAFE_INTEGER : Z := 2 ^ 53 - 1.

(** What holds of the numbers up to [MAX_SAFE_INTEGER]: each integer is a
    number of its own, their sums are not rounded, and their text is
    their decimal digits. *)
Definition exact (js : ops) : Prop :=
  (∀ a b : Z, (0 ≤ a)%Z → (0 ≤ b)%Z → (a + b ≤ MAX_SAFE_INTEGER)%Z →
     plus js (of_Z js a) (of_Z js b) = of_Z js (a + b))
  ∧ (∀ z : Z, (0 ≤ z ≤ MAX_SAFE_INTEGER)%Z →
       toString js (of_Z js z) = string_of_Z z).

(** The integers themselves, with their addition and their digits. *)
Definition integers : ops := mk Z (λ z, z) Z.add string_of_Z.
End Number.

(** ** [getPlaylistTracks] *)

(** [offset + i + 1], [offset + 1] and [offset + items.length], each sum
    taken from left to right. *)
Definition line_number (js : Number.ops) (offset : Z) (i : nat)
    : Number.t js :=
  Number.plus js
    (Number.plus js (Number.of_Z js offset) (Number.of_Z js (Z.of_nat i)))
    (Number.of_Z js 1).

Definition range_first (js : Number.ops) (offset : Z) : Number.t js :=
  Number.plus js (Number.of_Z js offset) (Number.of_Z js 1).

Definition range_last (js : Number.ops) (offset : Z) (count : nat)
    : Number.t js :=
  Number.plus js (Number.of_Z js offset) (Number.of_Z js (Z.of_nat count)).

(** The line of one playlist item at index [i], numbered from [offset]. *)
Definition playlist_track_line (js : Number.ops) (offset : Z) (i : nat)
    (item : PlaylistedTrack.t) : string :=
  match PlaylistedTrack.track item with
  | Undefined | Null =>
      Number.toString js (line_number js offset i) +:+ ". [Removed track]"
  | Value track =>
      if isTrack track
      then
        let artists := item_artists track in
        let duration := formatDuration (PlayableItem.duration_ms track) in
        Number.toString js (line_number js offset i) +:+ ". " +:+ dq +:+
        PlayableItem.name track +:+ dq +:+ " by " +:+ artists +:+ " (" +:+
        duration +:+ ") - ID: " +:+ PlayableItem.id track
      else Number.toString js (line_number js offset i) +:+ ". Unknown item"
  end.

(** The handler of [getPlaylistTracks]; a missing [limit] is fifty and a
    missing [offset] zero. Nothing catches what the remote call throws. *)
Definition getPlaylistTracks_handler (js : Number.ops) (playlistId : string)
    (limit : option Z) (offset : option Z) : task readE ToolResult :=
  let limit := default 50%Z limit in
  let offset := default 0%Z offset in
  playlistTracks ←
    handleSpotifyRequest (GetPlaylistItems playlistId limit offset);
  match PlaylistItems.items playlistTracks with
  | Value (item :: rest) =>
      let items := item :: rest in
      let formattedTracks :=
        join nl (imap (playlist_track_line js offset) items) in
      mret (text_result
        ("# Tracks in Playlist (" +:+
         Number.toString js (range_first js offset) +:+ "-" +:+
         Number.toString js (range_last js offset (length items)) +:+
         " of " +:+
         Number.toString js
           (Number.of_Z js (PlaylistItems.total playlistTracks)) +:+
         ")" +:+ nl +:+ nl +:+ formattedTracks))
  | _ => mret (text_result "This playlist doesn't have any tracks")
  end.

(** An item whose track is there and passes [isTrack]. *)
Definition holds_track (track : nullable PlayableItem.t) : bool :=
  match track with
  | Value track => isTrack track
  | _ => false
  end.

(** ** [getUsersSavedTracks] *)

Section dates.
(** [new Date(s).toLocaleDateString()] and [new Date(s).toLocaleString()],
    which depend on the locale and the time zone of the process. *)
Variable toLocaleDateString : string → string.
Variable toLocaleString : string → string.

(** The line of one saved item at index [i]: a track is numbered from
    [offset], the other two kinds from one. *)
Definition saved_track_line (js : Number.ops) (offset : Z) (i : nat)
    (item : PlaylistedTrack.t) : string :=
  match PlaylistedTrack.track item with
  | Undefined | Null => string_of_nat (i + 1) +:+ ". [Removed track]"
  | Value track =>
      if isTrack track
      then
        let artists := item_artists track in
        let duration := formatDuration (PlayableItem.duration_ms track) in
        let addedDate :=
          toLocaleDateString (PlaylistedTrack.added_at item) in
        Number.toString js (line_number js offset i) +:+ ". " +:+ dq +:+
        PlayableItem.name track +:+ dq +:+ " by " +:+ artists +:+ " (" +:+
        duration +:+ ") - ID: " +:+ PlayableItem.id track +:+ " - Added: " +:+
        addedDate
      else string_of_nat (i + 1) +:+ ". Unknown item"
  end.

(** The handler of [getUsersSavedTracks]; a missing [limit] is fifty and
    a missing [offset] zero. Nothing catches what the remote call
    throws. *)
Definition getUsersSavedTracks_handler (js : Number.ops) (limit : option Z)
    (offset : option Z) : task readE ToolResult :=
  let limit := default 50%Z limit in
  let offset := default 0%Z offset in
  savedTracks ← handleSpotifyRequest (SavedTracks limit offset);
  if length (Page.items savedTracks) =? 0
  then mret (text_result "You don't have any saved tracks in your Liked Songs")
  else
    let formattedTracks :=
      join nl (imap (saved_track_line js offset) (Page.items savedTracks)) in
    mret (text_result
      ("# Your Liked Songs (" +:+
       Number.toString js (range_first js offset) +:+ "-" +:+
       Number.toString js
         (range_last js offset (length (Page.items savedTracks))) +:+
       " of " +:+
       Number.toString js (Number.of_Z js (Page.total savedTracks)) +:+
       ")" +:+ nl +:+ nl +:+ formattedTracks)).

(** The line of one history item at index [i]. *)
Definition history_line (i : nat) (item : PlayHistory.t) : string :=
  match PlayHistory.track item with
  | Undefined | Null => string_of_nat (i + 1) +:+ ". [Removed track]"
  | Value track =>
      if isTrack track
      then
        let artists := item_artists track in
        let duration := formatDuration (PlayableItem.duration_ms track) in
        let playedAt :=
          match PlayHistory.played_at item with
          | Value (String c s) => toLocaleString (String c s)
          | _ => "Unknown time"
          end in
        string_of_nat (i + 1) +:+ ". " +:+ dq +:+ PlayableItem.name track +:+
        dq +:+ " by " +:+ artists +:+ " (" +:+ duration +:+ ") - ID: " +:+
        PlayableItem.id track +:+ " - Played at: " +:+ playedAt
      else string_of_nat (i + 1) +:+ ". Unknown item"
  end.

(** The handler of [getRecentlyPlayed]; a missing [limit] is fifty.
    Nothing catches what the remote call throws. *)
Definition getRecentlyPlayed_handler (limit : option Z)
    : task readE ToolResult :=
  let limit := default 50%Z limit in
  history ← handleSpotifyRequest (GetRecentlyPlayedTracks limit);
  if length (Page.items history) =? 0
  then mret (text_result
    "You don't have any recently played tracks on Spotify")
  else
    let formattedHistory := join nl (imap history_line (Page.items history)) in
    mret (text_result
      ("# Recently Played Tracks" +:+ nl +:+ nl +:+ formattedHistory)).
End dates.

(** ** [getQueue] *)

(** [xs.slice(0, end)] for an integer [end]: a negative [end] counts from
    the end of the array. *)
Definition slice0 {A} (xs : list A) (end_ : Z) : list A :=
  if (end_ <? 0)%Z
  then take (Z.to_nat (Z.of_nat (length xs) + end_)) xs
  else take (Z.to_nat end_) xs.

(** The three guarded fields of a queue entry that may itself be missing. *)
Definition queue_name (track : nullable QueueItem.t) : string :=
  nullish_or (optional QueueItem.name track) "Unknown".

Definition queue_artists (track : nullable QueueItem.t) : string :=
  match optional QueueItem.artists track with
  | Value artists => join ", " (SpotifyArtist.name <$> artists)
  | _ => "Unknown"
  end.

Definition queue_duration (track : nullable QueueItem.t) : string :=
  match optional QueueItem.duration_ms track with
  | Value duration_ms => formatDuration duration_ms
  | _ => "Unknown"
  end.

Definition queue_line (i : nat) (track : nullable QueueItem.t) : string :=
  let name := queue_name track in
  let artists := queue_artists track in
  let duration := queue_duration track in
  let id := nullish_or (optional QueueItem.id track) "Unknown" in
  string_of_nat (i + 1) +:+ ". " +:+ dq +:+ name +:+ dq +:+ " by " +:+
  artists +:+ " (" +:+ duration +:+ ") - ID: " +:+ id.

Definition currentText (current : nullable QueueItem.t) : string :=
  match current with
  | Value _ =>
      "Currently Playing: " +:+ dq +:+ queue_name current +:+ dq +:+ " by " +:+
      queue_artists current +:+ " (" +:+ queue_duration current +:+ ")"
  | _ => "Nothing is currently playing"
  end.

(** The handler of [getQueue]; a missing [limit] is ten. *)
Definition getQueue_handler (limit : option Z) : task readE ToolResult :=
  let limit := default 10%Z limit in
  try_catch
    (queue ← handleSpotifyRequest GetUsersQueue;
     let current := optional Queue.currently_playing queue in
     let upcoming := nullish_or (optional Queue.queue queue) [] in
     let header := "# Spotify Queue" +:+ nl +:+ nl in
     let currentText := currentText current in
     if length upcoming =? 0
     then mret (text_result
       (header +:+ currentText +:+ nl +:+ nl +:+
        "No upcoming items in the queue"))
     else
       let toShow := slice0 upcoming limit in
       let formatted := join nl (imap queue_line toShow) in
       mret (text_result
         (header +:+ currentText +:+ nl +:+ nl +:+ "Next " +:+
          string_of_nat (length toShow) +:+ " in queue:" +:+ nl +:+ nl +:+
          formatted)))
    (λ error,
       mret (text_result ("Error fetching queue: " +:+ error_text error))).

(** ** [getAvailableDevices] *)

Definition device_line (i : nat) (device : Device.t) : string :=
  let status := if Device.is_active device then "▶ Active" else "○ Inactive" in
  let volume :=
    match Device.volume_percent device with
    | Null => "N/A"
    | volume_percent => interpolate string_of_Z volume_percent +:+ "%"
    end in
  let restricted :=
    if Device.is_restricted device then " (Restricted)" else EmptyString in
  string_of_nat (i + 1) +:+ ". " +:+ Device.name device +:+ " (" +:+
  Device.type device +:+ ")" +:+ restricted +:+ nl +:+ "   Status: " +:+
  status +:+ " | Volume: " +:+ volume +:+ " | ID: " +:+
  interpolate id (Device.id device).

Definition getAvailableDevices_handler : task readE ToolResult :=
  try_catch
    (devices ← handleSpotifyRequest GetAvailableDevices;
     match Devices.devices devices with
     | Value (device :: rest) =>
         let formattedDevices :=
           join (nl +:+ nl) (imap device_line (device :: rest)) in
         mret (text_result
           ("# Available Spotify Devices" +:+ nl +:+ nl +:+ formattedDevices))
     | _ =>
         mret (text_result
           ("No available devices found. " +:+
            "Make sure Spotify is open on at least one device."))
     end)
    (λ error,
       mret (text_result
         ("Error getting available devices: " +:+ error_text error))).

(** ** [test_audio_features] *)

Section audio.
Variable number : Type.
(** [`${n}`] for a number that is a measure. *)
Variable number_to_string : number → string.

(** [`${v ?? 'N/A'}`] *)
Definition or_NA {A} (show : A → string) (v : nullable A) : string :=
  match v with
  | Value a => show a
  | _ => "N/A"
  end.

(** [mode === 1 ? 'Major' : mode === 0 ? 'Minor' : 'N/A'] *)
Definition mode_name (mode : nullable Z) : string :=
  match mode with
  | Value 1%Z => "Major"
  | Value 0%Z => "Minor"
  | _ => "N/A"
  end.

Definition access_denied_text : string :=
  "# ❌ Audio Features Access Denied" +:+ nl +:+ nl +:+
  "Your Spotify app does not have access to the Audio Features endpoint." +:+
    nl +:+ nl +:+
  "**Error**: 403 Forbidden" +:+ nl +:+ nl +:+
  "This means your app was likely created after November 27, 2024, " +:+
    "or doesn't have extended mode access." +:+ nl +:+ nl +:+
  "**What this means**:" +:+ nl +:+
  "- You cannot access BPM/tempo data" +:+ nl +:+
  "- You cannot access other audio features " +:+
    "(danceability, energy, key, etc.)" +:+ nl +:+
  "- This is a Spotify API restriction for new applications".

Definition test_error_text (errorMessage : string) : string :=
  "# ⚠️ Error Testing Audio Features" +:+ nl +:+ nl +:+
  "An error occurred while testing access to " +:+
    "the Audio Features endpoint." +:+ nl +:+ nl +:+
  "**Error**: " +:+ errorMessage +:+ nl +:+ nl +:+
  "This could mean:" +:+ nl +:+
  "- The track ID is invalid" +:+ nl +:+
  "- There's a network issue" +:+ nl +:+
  "- The endpoint is not accessible".

(** The handler of [testAudioFeatures]. *)
Definition testAudioFeatures_handler (trackId : string)
    : task (audioE number) ToolResult :=
  try_catch
    (audioFeatures ← handleSpotifyRequest (TracksAudioFeatures trackId);
     match audioFeatures with
     | Undefined | Null =>
         mret (text_result
           ("No audio features found for track ID " +:+ dq +:+ trackId +:+ dq))
     | Value audioFeatures =>
         mret (text_result
           ("# ✅ Audio Features Access Confirmed!" +:+ nl +:+ nl +:+
            "You have access to the Audio Features endpoint." +:+ nl +:+
              nl +:+
            "**Track ID**: " +:+ trackId +:+ nl +:+
            "**BPM (Tempo)**: " +:+
              or_NA number_to_string (AudioFeatures.tempo audioFeatures) +:+
              nl +:+
            "**Time Signature**: " +:+
              or_NA string_of_Z (AudioFeatures.time_signature audioFeatures) +:+
              nl +:+
            "**Key**: " +:+
              or_NA string_of_Z (AudioFeatures.key audioFeatures) +:+ nl +:+
            "**Mode**: " +:+ mode_name (AudioFeatures.mode audioFeatures) +:+
              nl +:+
            "**Danceability**: " +:+
              or_NA number_to_string
                (AudioFeatures.danceability audioFeatures) +:+ nl +:+
            "**Energy**: " +:+
              or_NA number_to_string (AudioFeatures.energy audioFeatures) +:+
              nl +:+
            "**Loudness**: " +:+
              or_NA number_to_string (AudioFeatures.loudness audioFeatures) +:+
              " dB" +:+ nl +:+
            "**Speechiness**: " +:+
              or_NA number_to_string
                (AudioFeatures.speechiness audioFeatures) +:+ nl +:+
            "**Acousticness**: " +:+
              or_NA number_to_string
                (AudioFeatures.acousticness audioFeatures) +:+ nl +:+
            "**Instrumentalness**: " +:+
              or_NA number_to_string
                (AudioFeatures.instrumentalness audioFeatures) +:+ nl +:+
            "**Liveness**: " +:+
              or_NA number_to_string (AudioFeatures.liveness audioFeatures) +:+
              nl +:+
            "**Valence**: " +:+
              or_NA number_to_string (AudioFeatures.valence audioFeatures)))
     end)
    (λ error,
       let errorMessage := error_text error in
       if includes errorMessage "403" || includes errorMessage "Forbidden"
       then mret (text_result access_denied_text)
       else mret (text_result (test_error_text errorMessage))).
End audio.

(** ** Sample data *)

(** One answer per call of the read tools. *)
Record Answers := {
  search : completion SearchResults.t;
  playback : completion (nullable PlaybackState.t);
  playlists : completion (Page.t Playlist.t);
  playlistItems : completion PlaylistItems.t;
  recentlyPlayed : completion (Page.t PlayHistory.t);
  savedTracks : completion (Page.t PlaylistedTrack.t);
  queue : completion (nullable Queue.t);
  devices : completion Devices.t
}.

Definition answering (a : Answers) : collaborator readE :=
  λ X request,
    match request in readE X return completion X with
    | Search _ _ _ => search a
    | GetPlaybackState => playback a
    | Playlists _ => playlists a
    | GetPlaylistItems _ _ _ => playlistItems a
    | GetRecentlyPlayedTracks _ => recentlyPlayed a
    | SavedTracks _ _ => savedTracks a
    | GetUsersQueue => queue a
    | GetAvailableDevices => devices a
    end.

Definition sample_song : PlayableItem.t :=
  PlayableItem.mk "11dFghVXANMlKmJXsNCbNl" "Cut To The Feeling" "track" 225000
    (Value sample_artists) (Value (AlbumRef.mk (Value "Emotion: Side B"))).

Definition sample_episode : PlayableItem.t :=
  PlayableItem.mk "512ojhOuo1ktJprKbVcKyQ" "Episode 1" "episode" 1800000
    Undefined Undefined.

Definition sample_items : list PlaylistedTrack.t :=
  [ PlaylistedTrack.mk (Value sample_song) "2024-01-15T10:00:00Z";
    PlaylistedTrack.mk Null "2024-01-16T10:00:00Z";
    PlaylistedTrack.mk (Value sample_episode) "2024-01-17T10:00:00Z" ].

Definition sample_history : list PlayHistory.t :=
  [ PlayHistory.mk (Value sample_song) (Value "2024-01-15T10:00:00Z");
    PlayHistory.mk (Value sample_song) Undefined ].

Definition sample_phone : Device.t :=
  Device.mk (Value "74ASZWbe4lXaubB36ztrGX") true false "Phone" "Smartphone"
    (Value 60%Z).

Definition sample_speaker : Device.t :=
  Device.mk Null false true "Kitchen" "Speaker" Null.

Definition sample_queue_items : list (nullable QueueItem.t) :=
  [ Value (QueueItem.mk (Value "11dFghVXANMlKmJXsNCbNl")
             (Value "Cut To The Feeling") (Value 225000%N)
             (Value sample_artists));
    Null;
    Value (QueueItem.mk Undefined (Value "Untitled") Undefined Undefined) ].

Definition sample_playlists : list Playlist.t :=
  [ Playlist.mk "37i9dQZF1DXcBWIGoYBM5M" (Value "Today's Top Hits")
      (Value "The hottest tracks") (Value (Owner.mk (Value "Spotify")))
      (Value (TracksRef.mk (Value 50%Z)));
    Playlist.mk "5ABHKGoOzxkaa28ttQV9sE" (Value "Empty") Null Null Null ].

Definition sample_search : SearchResults.t :=
  SearchResults.mk (Value (Page.mk [ sample_track ] 1%Z)) Undefined
    (Value (Page.mk sample_artists 1%Z)) Undefined.

(** [toLocaleDateString] and [toLocaleString] of a process that prints
    the first ten, or all, characters of an ISO date. *)
Definition sample_date (s : string) : string := String.substring 0 10 s.
Definition sample_time (s : string) : string := s.

Definition sample_answers : Answers :=
  {| search := Normal sample_search;
     playback :=
       Normal (Value (PlaybackState.mk (Value sample_episode) (Value 1000%N)
                        true (Value sample_phone) false (Value "off")));
     playlists := Normal (Page.mk sample_playlists 2%Z);
     playlistItems := Normal (PlaylistItems.mk (Value sample_items) 120%Z);
     recentlyPlayed := Normal (Page.mk sample_history 2%Z);
     savedTracks := Normal (Page.mk sample_items 120%Z);
     queue :=
       Normal (Value (Queue.mk Undefined (Value sample_queue_items)));
     devices :=
       Normal (Devices.mk (Value [ sample_phone; sample_speaker ])) |}.

(** Nothing anywhere: no results, no playback, no queue, no devices. *)
Definition quiet_answers : Answers :=
  {| search :=
       Normal (SearchResults.mk Undefined Undefined Undefined Undefined);
     playback := Normal Null;
     playlists := Normal (Page.mk [] 0%Z);
     playlistItems := Normal (PlaylistItems.mk Undefined 0%Z);
     recentlyPlayed := Normal (Page.mk [] 0%Z);
     savedTracks := Normal (Page.mk [] 0%Z);
     queue := Normal Null;
     devices := Normal (Devices.mk Null) |}.

(** A paused track, with nothing known about progress, device or
    repeat. *)
Definition paused_playback : PlaybackState.t :=
  PlaybackState.mk (Value sample_song) Undefined false Undefined true Null.

Definition paused_answers : Answers :=
  {| search :=
       Normal (SearchResults.mk Undefined Undefined Undefined Undefined);
     playback := Normal (Value paused_playback);
     playlists := Normal (Page.mk [] 0%Z);
     playlistItems := Normal (PlaylistItems.mk Undefined 0%Z);
     recentlyPlayed := Normal (Page.mk [] 0%Z);
     savedTracks := Normal (Page.mk [] 0%Z);
     queue := Normal Null;
     devices := Normal (Devices.mk Null) |}.

Definition failing_answers : Answers :=
  {| search := Throw (ErrorObject "Bad OAuth request");
     playback := Throw (ErrorObject "Bad OAuth request");
     playlists := Throw (ErrorObject "Bad OAuth request");
     playlistItems := Throw (ErrorObject "Bad OAuth request");
     recentlyPlayed := Throw (ErrorObject "Bad OAuth request");
     savedTracks := Throw (ErrorObject "Bad OAuth request");
     queue := Throw (ErrorObject "Bad OAuth request");
     devices := Throw (ErrorObject "Bad OAuth request") |}.

(** A collaborator for [test_audio_features] with integers for numbers. *)
Definition audio_answering
    (answer : completion (nullable (AudioFeatures.t Z)))
    : collaborator (audioE Z) :=
  λ X request,
    match request in audioE _ X return completion X with
    | TracksAudioFeatures _ => answer
    end.

End Read.

(** * Properties *)

(** ** Strings *)

Section strings.
Implicit Types s p pre post : string.

Lemma append_nil_l s : EmptyString +:+ s = s.
Proof. reflexivity. Qed.

Lemma append_cons c s1 s2 : String c s1 +:+ s2 = String c (s1 +:+ s2).
Proof. reflexivity. Qed.

Lemma append_assoc s1 s2 s3 : (s1 +:+ s2) +:+ s3 = s1 +:+ s2 +:+ s3.
Proof.
  induction s1 as [|c s1 IH]; [done|]. by rewrite !append_cons, IH.
Qed.

Lemma append_empty_r s : s +:+ EmptyString = s.
Proof. induction s as [|c s IH]; [done|]. by rewrite append_cons, IH. Qed.

Lemma startsWith_spec s p :
  startsWith s p = true ↔ ∃ rest, s = p +:+ rest.
Proof.
  unfold startsWith. revert s.
  induction p as [|c p IH]; intros [|d s]; simpl;
    try (split; [by eauto | done]).
  - split; [done | by intros [? ?]].
  - destruct (ascii_dec c d) as [->|Hne].
    + rewrite IH. split; intros [rest Hrest]; exists rest;
        rewrite ?append_cons in *; congruence.
    + split; [done | intros [rest Hrest]].
      rewrite append_cons in Hrest. congruence.
Qed.

Lemma startsWith_append p rest : startsWith (p +:+ rest) p = true.
Proof. apply startsWith_spec. by exists rest. Qed.

Lemma includes_nil p :
  includes EmptyString p = startsWith EmptyString p || false.
Proof. reflexivity. Qed.

Lemma includes_cons c s p :
  includes (String c s) p = startsWith (String c s) p || includes s p.
Proof. reflexivity. Qed.

Lemma includes_spec s p :
  includes s p = true ↔ ∃ pre post, s = pre +:+ p +:+ post.
Proof.
  split.
  - induction s as [|c s IH];
      rewrite ?includes_nil, ?includes_cons, orb_true_iff;
      (intros [[rest Hrest]%startsWith_spec | Hin];
       [by exists EmptyString, rest |]); [done|].
    destruct (IH Hin) as (pre & post & ->).
    by exists (String c pre), post.
  - intros (pre & post & ->).
    induction pre as [|c pre IH].
    + rewrite append_nil_l.
      destruct (p +:+ post) as [|c s] eqn:E;
        rewrite ?includes_nil, ?includes_cons, <- E;
        by rewrite startsWith_append.
    + by rewrite append_cons, includes_cons, IH, orb_true_r.
Qed.

Lemma includes_middle pre p post : includes (pre +:+ p +:+ post) p = true.
Proof. apply includes_spec. by exists pre, post. Qed.

Lemma includes_refl s : includes s s = true.
Proof.
  apply includes_spec. exists EmptyString, EmptyString.
  by rewrite append_empty_r.
Qed.

Lemma includes_append_r s p post :
  includes s p = true → includes (s +:+ post) p = true.
Proof.
  intros (pre & post' & ->)%includes_spec. apply includes_spec.
  exists pre, (post' +:+ post). by rewrite !append_assoc.
Qed.

Lemma includes_append_l s p pre :
  includes s p = true → includes (pre +:+ s) p = true.
Proof.
  intros (pre' & post & ->)%includes_spec. apply includes_spec.
  exists (pre +:+ pre'), post. by rewrite !append_assoc.
Qed.

Lemma join_singleton sep x : join sep [x] = x.
Proof. reflexivity. Qed.

Lemma join_cons sep x y (xs : list string) :
  join sep (x :: y :: xs) = x +:+ sep +:+ join sep (y :: xs).
Proof. reflexivity. Qed.

(** An element of a joined array is a part of the joined text. *)
Lemma join_lookup sep (xs : list string) i x :
  xs !! i = Some x → ∃ pre post, join sep xs = pre +:+ x +:+ post.
Proof.
  revert i. induction xs as [|y xs IH]; intros [|i] Hi; simplify_eq/=.
  - destruct xs as [|y' xs].
    + exists EmptyString, EmptyString.
      by rewrite join_singleton, append_empty_r.
    + by exists EmptyString, (sep +:+ join sep (y' :: xs)).
  - destruct (IH _ Hi) as (pre & post & Hjoin).
    destruct xs as [|y' xs]; [done|].
    exists (y +:+ sep +:+ pre), post.
    by rewrite join_cons, Hjoin, !append_assoc.
Qed.
End strings.

(** Lines joined and appended, brought to one right-nested append. *)
Ltac flatten_lines :=
  rewrite ?join_cons, ?join_singleton, ?append_assoc.

(** ** What the handlers settle to *)

Section handlers.
Variable remote : collaborator.

Lemma run_getTrack_throw trackId error :
  remote _ (TracksGet trackId) = Throw error →
  run remote (getTrack_handler trackId) = Normal (error_result error).
Proof. intros H. unfold getTrack_handler. simpl. by rewrite H. Qed.

Lemma run_getTrack_absent trackId track :
  remote _ (TracksGet trackId) = Normal track → falsy track = true →
  run remote (getTrack_handler trackId) =
  Normal (text_result (not_found_text trackId)).
Proof.
  intros H Hf. unfold getTrack_handler. simpl. rewrite H.
  by destruct track.
Qed.

Lemma run_getTrack_found trackId track :
  remote _ (TracksGet trackId) = Normal (Value track) →
  run remote (getTrack_handler trackId) =
  Normal (text_result
    ("# Track Metadata" +:+ nl +:+ nl +:+ join nl (single_lines track))).
Proof.
  intros H. unfold getTrack_handler. simpl. rewrite H. simpl.
  do 2 f_equal. unfold single_lines, artist_names.
  by flatten_lines.
Qed.

Lemma run_getTracks_throw trackIds error :
  trackIds ≠ [] →
  remote _ (TracksGetMany trackIds) = Throw error →
  run remote (getTracks_handler trackIds) = Normal (error_result error).
Proof.
  intros Hne H. unfold getTracks_handler.
  destruct trackIds; [done|]. simpl. by rewrite H.
Qed.

Lemma run_getTracks_nothing trackIds tracks :
  trackIds ≠ [] →
  remote _ (TracksGetMany trackIds) = Normal tracks →
  falsy tracks = true ∨ tracks = Value [] →
  run remote (getTracks_handler trackIds) =
  Normal (text_result "No tracks found for the provided IDs").
Proof.
  intros Hne H Hnone. unfold getTracks_handler.
  destruct trackIds; [done|]. simpl. rewrite H.
  destruct Hnone as [Hf | ->]; [by destruct tracks | done].
Qed.

Lemma run_getTracks_some trackIds tracks :
  trackIds ≠ [] → tracks ≠ [] →
  remote _ (TracksGetMany trackIds) = Normal (Value tracks) →
  run remote (getTracks_handler trackIds) =
  Normal (text_result (tracksText trackIds tracks)).
Proof.
  intros Hne Hne' H. unfold getTracks_handler.
  destruct trackIds; [done|]. simpl. rewrite H.
  by destruct tracks.
Qed.

(** Whatever the collaborator does, both handlers settle normally, on a
    text response. *)
Lemma getTrack_settles trackId :
  ∃ text, run remote (getTrack_handler trackId) = Normal (text_result text).
Proof.
  unfold getTrack_handler. simpl.
  destruct (remote _ (TracksGet trackId)) as [[| |track]|error]; simpl; eauto.
Qed.

Lemma getTracks_settles trackIds :
  ∃ text, run remote (getTracks_handler trackIds) = Normal (text_result text).
Proof.
  unfold getTracks_handler.
  destruct trackIds as [|id ids]; simpl; [eauto|].
  destruct (remote _ (TracksGetMany (id :: ids))) as [[| |tracks]|error];
    simpl; eauto.
  destruct tracks; simpl; eauto.
Qed.
End handlers.

(** ** The claims *)

(** C8. For the empty input list [get_tracks] answers with the fixed text
    [No track IDs provided], which contains [no track] once lowered, and
    it makes no remote call: the body settles without awaiting. *)
Theorem get_tracks_empty_input :
  getTracks_handler [] = Settled (Normal (text_result "No track IDs provided"))
  ∧ includes (toLowerCase "No track IDs provided") "no track" = true
  ∧ ∀ remote : collaborator,
      run remote (getTracks_handler []) =
        Normal (text_result "No track IDs provided")
      ∧ remote_calls remote (getTracks_handler []) = 0.
Proof. split; [done|]. split; [by vm_compute|]. intros remote. by split. Qed.

(** C6. When the remote single-item resolution gives [null], [get_track]
    settles normally on the text [Track with ID "<id>" not found] with the
    input identifier in it; the text is not the error block. *)
Theorem get_track_not_found (remote : collaborator) (trackId : string) :
  remote _ (TracksGet trackId) = Normal Null →
  run remote (getTrack_handler trackId) =
    Normal (text_result
      ("Track with ID " +:+ dq +:+ trackId +:+ dq +:+ " not found"))
  ∧ startsWith ("Track with ID " +:+ dq +:+ trackId +:+ dq +:+ " not found")
      "Error retrieving track metadata: " = false.
Proof.
  intros H. split; [by apply run_getTrack_absent with (track := Null)|].
  by rewrite !append_cons.
Qed.

Lemma get_track_not_found_witness :
  sample_remote_null _ (TracksGet "invalid-track-id") = Normal Null
  ∧ run sample_remote_null (getTrack_handler "invalid-track-id") =
      Normal (text_result
        ("Track with ID " +:+ dq +:+ "invalid-track-id" +:+ dq +:+
         " not found")).
Proof.
  split; [reflexivity|].
  apply (get_track_not_found sample_remote_null "invalid-track-id").
  reflexivity.
Defined.

(** C3. Whatever the input and whatever the collaborator does (a record,
    [null], nothing, an empty array, a rejection), neither handler
    raises: each settles normally on one text item. When the remote call
    of [get_track] throws, the text is [Error retrieving track metadata: ]
    followed by the message of the error; the same holds for the one
    remote call of [get_tracks], which a non-empty batch makes. The bound
    of fifty identifiers is the schema's; the handler needs none. *)
Theorem handlers_never_raise (remote : collaborator) (trackId : string)
    (trackIds : list string) :
  (∃ text,
     run remote (getTrack_handler trackId) = Normal (text_result text)
     ∧ ∀ error, remote _ (TracksGet trackId) = Throw error →
         text = "Error retrieving track metadata: " +:+ error_text error)
  ∧ (∃ text,
       run remote (getTracks_handler trackIds) = Normal (text_result text)
       ∧ ∀ error, trackIds ≠ [] →
           remote _ (TracksGetMany trackIds) = Throw error →
           text = "Error retrieving track metadata: " +:+ error_text error).
Proof.
  split.
  - destruct (getTrack_settles remote trackId) as [text Htext].
    exists text. split; [done|]. intros error Herror.
    rewrite (run_getTrack_throw remote _ _ Herror) in Htext.
    by injection Htext as <-.
  - destruct (getTracks_settles remote trackIds) as [text Htext].
    exists text. split; [done|]. intros error Hne Herror.
    rewrite (run_getTracks_throw remote _ _ Hne Herror) in Htext.
    by injection Htext as <-.
Qed.

Lemma handlers_never_raise_witness :
  run failing_remote (getTrack_handler "11dFghVXANMlKmJXsNCbNl") =
    Normal (text_result "Error retrieving track metadata: Bad OAuth request")
  ∧ run failing_remote (getTracks_handler sample_ids) =
    Normal (text_result "Error retrieving track metadata: Bad OAuth request").
Proof.
  destruct (handlers_never_raise failing_remote "11dFghVXANMlKmJXsNCbNl"
              sample_ids) as [[one [Hone Hthrow1]] [many [Hmany Hthrow]]].
  rewrite Hone, Hmany.
  rewrite (Hthrow1 (ErrorObject "Bad OAuth request") eq_refl).
  rewrite (Hthrow (ErrorObject "Bad OAuth request"));
    [|discriminate|reflexivity].
  split; reflexivity.
Defined.

(** The count the handler takes is the number of slots that are not
    [null]. *)
Lemma validCount_non_null tracks : validCount tracks = non_null_slots tracks.
Proof.
  unfold validCount.
  induction tracks as [|[| |track] tracks IH]; simpl; congruence.
Qed.

Lemma tracksText_header trackIds tracks :
  tracksText trackIds tracks =
  batch_header (validCount tracks) (length trackIds) +:+ nl +:+
  join nl (formattedBlocks trackIds tracks).
Proof. unfold tracksText, batch_header. by rewrite !append_assoc. Qed.

(** C7. For a non-empty batch whose remote call gives a non-empty array,
    the response begins with the header
    [# Track Metadata (<validCount> of <total> tracks)], where
    [validCount] counts the slots of the array that are not [null] and
    [total] is the number of input identifiers. *)
Theorem get_tracks_header (remote : collaborator) (trackIds : list string)
    (tracks : list (nullable Track)) :
  trackIds ≠ [] → tracks ≠ [] →
  remote _ (TracksGetMany trackIds) = Normal (Value tracks) →
  ∃ text,
    run remote (getTracks_handler trackIds) = Normal (text_result text)
    ∧ startsWith text
        ("# Track Metadata (" +:+ string_of_nat (non_null_slots tracks) +:+
         " of " +:+ string_of_nat (length trackIds) +:+ " tracks)") = true.
Proof.
  intros Hids Htracks Hremote. eexists. split.
  - by apply run_getTracks_some.
  - rewrite tracksText_header, validCount_non_null.
    apply startsWith_append.
Qed.

Lemma get_tracks_header_witness :
  ∃ text,
    run sample_remote (getTracks_handler sample_ids) =
      Normal (text_result text)
    ∧ startsWith text "# Track Metadata (1 of 2 tracks)" = true.
Proof.
  apply (get_tracks_header sample_remote sample_ids sample_slots);
    [discriminate | discriminate | reflexivity].
Defined.

Lemma string_or_absent (v : nullable string) d :
  falsy v = true → string_or v d = d.
Proof. by destruct v. Qed.

Lemma string_or_present s d : s ≠ EmptyString → string_or (Value s) d = s.
Proof. by destruct s. Qed.

(** C5. When the identifier resolves to a record, [get_track] renders
    the title line, an empty line and then exactly ten lines, one per
    label, in the order Track, Artists, Album, Duration, Popularity,
    Explicit, ISRC, Preview, Spotify URL, ID. Popularity is shown as
    [<n>/100], Explicit as [Yes] or [No], and a missing ISRC or preview
    gives [N/A] or [Not available]. *)
Theorem get_track_found_rendering (remote : collaborator) (trackId : string)
    (track : Track) :
  remote _ (TracksGet trackId) = Normal (Value track) →
  ∃ popularity explicit isrc preview : string,
    run remote (getTrack_handler trackId) =
      Normal (text_result
        ("# Track Metadata" +:+ nl +:+ nl +:+
         join nl
           [ "**Track**: " +:+ dq +:+ SpotifyTrackMetadata.name track +:+ dq;
             "**Artists**: " +:+ artist_names track;
             "**Album**: " +:+
               SpotifyAlbum.name (SpotifyTrackMetadata.album track);
             "**Duration**: " +:+
               formatDuration (SpotifyTrackMetadata.duration_ms track);
             "**Popularity**: " +:+ popularity +:+ "/100";
             "**Explicit**: " +:+ explicit;
             "**ISRC**: " +:+ isrc;
             "**Preview**: " +:+ preview;
             "**Spotify URL**: " +:+
               ExternalUrls.spotify (SpotifyTrackMetadata.external_urls track);
             "**ID**: " +:+ SpotifyTrackMetadata.id track ]))
    ∧ (∀ n, SpotifyTrackMetadata.popularity track = Value n →
         popularity = string_of_Z n)
    ∧ (SpotifyTrackMetadata.explicit track = true → explicit = "Yes")
    ∧ (SpotifyTrackMetadata.explicit track = false → explicit = "No")
    ∧ (falsy (optional_isrc (SpotifyTrackMetadata.external_ids track)) = true →
         isrc = "N/A")
    ∧ (∀ s, optional_isrc (SpotifyTrackMetadata.external_ids track) = Value s →
         s ≠ EmptyString → isrc = s)
    ∧ (falsy (SpotifyTrackMetadata.preview_url track) = true →
         preview = "Not available")
    ∧ (∀ s, SpotifyTrackMetadata.preview_url track = Value s →
         s ≠ EmptyString → preview = s).
Proof.
  intros Hremote.
  exists (string_of_Z (nullish_or (SpotifyTrackMetadata.popularity track) 0%Z)),
    (if SpotifyTrackMetadata.explicit track then "Yes" else "No"),
    (string_or (optional_isrc (SpotifyTrackMetadata.external_ids track)) "N/A"),
    (string_or (SpotifyTrackMetadata.preview_url track) "Not available").
  split; [by apply run_getTrack_found|].
  repeat split.
  - by intros n ->.
  - by intros ->.
  - by intros ->.
  - apply string_or_absent.
  - intros s -> Hs. by apply string_or_present.
  - apply string_or_absent.
  - intros s -> Hs. by apply string_or_present.
Qed.

Lemma get_track_found_rendering_witness :
  ∃ popularity explicit isrc preview : string,
    run sample_remote (getTrack_handler "11dFghVXANMlKmJXsNCbNl") =
      Normal (text_result
        ("# Track Metadata" +:+ nl +:+ nl +:+
         join nl
           [ "**Track**: " +:+ dq +:+ "Cut To The Feeling" +:+ dq;
             "**Artists**: Carly Rae Jepsen";
             "**Album**: Emotion: Side B";
             "**Duration**: 3:45";
             "**Popularity**: " +:+ popularity +:+ "/100";
             "**Explicit**: " +:+ explicit;
             "**ISRC**: " +:+ isrc;
             "**Preview**: " +:+ preview;
             "**Spotify URL**: " +:+
               "https://open.spotify.com/track/11dFghVXANMlKmJXsNCbNl";
             "**ID**: 11dFghVXANMlKmJXsNCbNl" ]))
    ∧ popularity = "85" ∧ explicit = "No" ∧ isrc = "USUM71703861"
    ∧ preview = "Not available".
Proof.
  destruct (get_track_found_rendering sample_remote "11dFghVXANMlKmJXsNCbNl"
              sample_track eq_refl)
    as (popularity & explicit & isrc & preview & Hrun & Hpop & _ & Hno
        & _ & Hisrc & Hpreview & _).
  exists popularity, explicit, isrc, preview.
  split; [exact Hrun|].
  rewrite (Hpop 85%Z eq_refl), (Hno eq_refl), (Hpreview eq_refl).
  rewrite (Hisrc "USUM71703861" eq_refl); [|discriminate].
  repeat split; reflexivity.
Defined.



(** ** The blocks of a batch response *)

Lemma formatTrack_slot_block trackIds index slot :
  formatTrack trackIds index slot =
  nl +:+ slot_block (S index) (interpolate_index trackIds index) slot.
Proof.
  unfold formatTrack, slot_block, absent_line, invalid_marker.
  destruct slot as [| |track]; rewrite ?append_assoc; try done.
  unfold found_block, found_lines, found_marker, artist_names.
  rewrite Nat.add_1_r. by flatten_lines.
Qed.

Lemma interpolate_index_lookup (trackIds : list string) index id :
  trackIds !! index = Some id → interpolate_index trackIds index = id.
Proof. unfold interpolate_index. by intros ->. Qed.

Lemma found_block_marker k track :
  ∃ rest, found_block k track = found_marker k +:+ rest.
Proof.
  unfold found_block, found_lines. rewrite join_cons, !append_assoc. eauto.
Qed.

Lemma found_block_heading k track :
  startsWith (nl +:+ found_block k track) (nl +:+ "## ") = true.
Proof.
  apply startsWith_spec.
  destruct (found_block_marker k track) as [rest ->].
  unfold found_marker. exists (string_of_nat k +:+ "." +:+ rest).
  by rewrite !append_assoc.
Qed.

Lemma absent_line_no_heading id p :
  startsWith (nl +:+ absent_line id) (nl +:+ "## " +:+ p) = false.
Proof. by unfold absent_line, invalid_marker, nl; rewrite !append_cons. Qed.

Lemma found_block_no_invalid_marker k track id :
  startsWith (nl +:+ found_block k track) (nl +:+ invalid_marker id) = false.
Proof.
  destruct (found_block_marker k track) as [rest ->].
  by unfold found_marker, invalid_marker, nl; rewrite !append_cons.
Qed.

Lemma found_blocks_imap (f : nat → nullable Track → string) tracks :
  (∀ index track,
     startsWith (f index (Value track)) (nl +:+ "## ") = true) →
  (∀ index slot, falsy slot = true →
     startsWith (f index slot) (nl +:+ "## ") = false) →
  found_blocks (imap f tracks) = records tracks.
Proof.
  unfold found_blocks. revert f.
  induction tracks as [|slot tracks IH]; intros f Hfound Habsent; [done|].
  rewrite imap_cons. cbn [List.filter].
  assert (length (List.filter (λ block, startsWith block (nl +:+ "## "))
            (imap (f ∘ S) tracks)) = records tracks) as Hrest.
  { apply IH; intros; [apply Hfound | by apply Habsent]. }
  destruct slot as [| |track].
  - rewrite (Habsent 0 Undefined eq_refl). by simpl.
  - rewrite (Habsent 0 Null eq_refl). by simpl.
  - rewrite Hfound. simpl. by rewrite Hrest.
Qed.

Lemma found_blocks_records trackIds tracks :
  found_blocks (formattedBlocks trackIds tracks) = records tracks.
Proof.
  apply found_blocks_imap.
  - intros index track. rewrite formatTrack_slot_block.
    apply found_block_heading.
  - intros index slot Hslot. rewrite formatTrack_slot_block.
    destruct slot; [| |done];
      apply (absent_line_no_heading _ EmptyString).
Qed.

Lemma non_null_slots_records tracks :
  (∀ slot, slot ∈ tracks → falsy slot = true → slot = Null) →
  non_null_slots tracks = records tracks.
Proof.
  induction tracks as [|slot tracks IH]; intros Hnull; [done|].
  assert (non_null_slots tracks = records tracks) as Hrest.
  { apply IH. intros s Hs. apply Hnull. by right. }
  destruct slot as [| |track]; simpl; try congruence.
  by specialize (Hnull Undefined (list_elem_of_here _ _) eq_refl).
Qed.

Lemma non_null_slots_app tracks tracks' :
  non_null_slots (tracks ++ tracks') =
  non_null_slots tracks + non_null_slots tracks'.
Proof. induction tracks as [|[| |track] tracks IH]; simpl; congruence. Qed.

Lemma records_app tracks tracks' :
  records (tracks ++ tracks') = records tracks + records tracks'.
Proof. induction tracks as [|[| |track] tracks IH]; simpl; congruence. Qed.

Lemma non_null_slots_split tracks :
  non_null_slots tracks = records tracks + undefined_slots tracks.
Proof. induction tracks as [|[| |track] tracks IH]; simpl; lia. Qed.

Lemma undefined_slots_elem tracks :
  Undefined ∈ tracks → 0 < undefined_slots tracks.
Proof.
  induction tracks as [|slot tracks IH]; intros Hin.
  - by apply elem_of_nil in Hin.
  - destruct slot as [| |track]; simpl; [lia| |];
      apply elem_of_cons in Hin as [Hin|Hin]; by auto.
Qed.

Lemma formattedBlocks_absent trackIds tracks i slot :
  tracks !! i = Some slot → falsy slot = true →
  formattedBlocks trackIds tracks !! i =
  Some (nl +:+ "[Invalid ID]: " +:+ interpolate_index trackIds i +:+
        " - Track not found").
Proof.
  intros Hslot Hfalsy. unfold formattedBlocks.
  rewrite list_lookup_imap, Hslot. simpl. f_equal.
  by destruct slot as [| |track].
Qed.

Lemma formattedBlocks_found trackIds tracks i track :
  tracks !! i = Some (Value track) →
  ∃ block, formattedBlocks trackIds tracks !! i = Some block
    ∧ startsWith block (nl +:+ "## ") = true.
Proof.
  intros Hslot. exists (formatTrack trackIds i (Value track)). split.
  - unfold formattedBlocks. by rewrite list_lookup_imap, Hslot.
  - rewrite formatTrack_slot_block. apply found_block_heading.
Qed.

(** C9. In the response of a batch, a slot is shown by the absent line
    whenever it is falsy and by a found block when it is a record, while
    the header counts the slots that are not [null]: the count of the
    header is the number of found blocks of the body plus the number of
    [undefined] slots. So when every slot without a record is exactly
    [null], the count of the header is the number of found blocks, and an
    [undefined] slot makes the count exceed the found blocks. *)
Theorem valid_count_and_found_blocks (remote : collaborator)
    (trackIds : list string) (tracks : list (nullable Track)) :
  trackIds ≠ [] → tracks ≠ [] →
  remote _ (TracksGetMany trackIds) = Normal (Value tracks) →
  ∃ (count : nat) (blocks : list string),
    run remote (getTracks_handler trackIds) =
      Normal (text_result
        (batch_header count (length trackIds) +:+ nl +:+ join nl blocks))
    ∧ length blocks = length tracks
    ∧ (∀ i slot, tracks !! i = Some slot → falsy slot = true →
         blocks !! i =
         Some (nl +:+ "[Invalid ID]: " +:+ interpolate_index trackIds i +:+
               " - Track not found"))
    ∧ (∀ i track, tracks !! i = Some (Value track) →
         ∃ block, blocks !! i = Some block
           ∧ startsWith block (nl +:+ "## ") = true)
    ∧ count = non_null_slots tracks
    ∧ count = found_blocks blocks + undefined_slots tracks
    ∧ ((∀ slot, slot ∈ tracks → falsy slot = true → slot = Null) →
         count = found_blocks blocks)
    ∧ (Undefined ∈ tracks → found_blocks blocks < count).
Proof.
  intros Hids Htracks Hremote.
  exists (validCount tracks), (formattedBlocks trackIds tracks).
  rewrite found_blocks_records, validCount_non_null.
  split.
  { rewrite (run_getTracks_some remote _ _ Hids Htracks Hremote).
    by rewrite tracksText_header, validCount_non_null. }
  split; [unfold formattedBlocks; by rewrite length_imap|].
  split; [intros i slot; apply formattedBlocks_absent|].
  split; [intros i track; apply formattedBlocks_found|].
  split; [done|].
  split; [apply non_null_slots_split|].
  split.
  - apply non_null_slots_records.
  - intros Hin%undefined_slots_elem. rewrite non_null_slots_split. lia.
Qed.

Lemma valid_count_and_found_blocks_witness :
  (∃ (count : nat) (blocks : list string),
     run sample_remote (getTracks_handler sample_ids) =
       Normal (text_result
         (batch_header count 2 +:+ nl +:+ join nl blocks))
     ∧ count = found_blocks blocks)
  ∧ (∃ (count : nat) (blocks : list string),
       run remote_with_hole (getTracks_handler sample_ids) =
         Normal (text_result
           (batch_header count 2 +:+ nl +:+ join nl blocks))
       ∧ found_blocks blocks < count).
Proof.
  split.
  - destruct (valid_count_and_found_blocks sample_remote sample_ids
                sample_slots)
      as (count & blocks & Hrun & _ & _ & _ & _ & _ & Hsame & _);
      [discriminate | discriminate | reflexivity |].
    exists count, blocks. split; [exact Hrun|]. apply Hsame.
    intros slot Hslot%list_elem_of_In Hfalsy.
    destruct Hslot as [<-|[<-|[]]]; [discriminate Hfalsy | reflexivity].
  - destruct (valid_count_and_found_blocks remote_with_hole sample_ids
                slots_with_hole)
      as (count & blocks & Hrun & _ & _ & _ & _ & _ & _ & Hbroken);
      [discriminate | discriminate | reflexivity |].
    exists count, blocks. split; [exact Hrun|]. apply Hbroken.
    apply list_elem_of_In. right. left. reflexivity.
Defined.

(** C1. For a non-empty batch and a result array of the same length, the
    response is the header followed by exactly one block per slot, in the
    order of the input: position [i] (counted from one) holds the found
    block headed [## i.] with the fields and the id of record [i] when
    slot [i] is a record, and the line
    [[Invalid ID]: <ids[i]> - Track not found] when slot [i] is [null].
    The bound of fifty identifiers is the schema's; the handler needs
    none. *)
Theorem get_tracks_one_block_per_slot (remote : collaborator)
    (trackIds : list string) (tracks : list (nullable Track)) :
  trackIds ≠ [] → length tracks = length trackIds →
  remote _ (TracksGetMany trackIds) = Normal (Value tracks) →
  ∃ blocks : list string,
    run remote (getTracks_handler trackIds) =
      Normal (text_result
        (batch_header (validCount tracks) (length trackIds) +:+ nl +:+
         join nl blocks))
    ∧ length blocks = length trackIds
    ∧ ∀ i id, trackIds !! i = Some id →
        ∃ slot block,
          tracks !! i = Some slot ∧ blocks !! i = Some block
          ∧ (slot = Null →
               block = nl +:+ "[Invalid ID]: " +:+ id +:+ " - Track not found")
          ∧ (∀ track, slot = Value track →
               block = nl +:+
                 join nl
                   [ "## " +:+ string_of_nat (S i) +:+ ". " +:+ dq +:+
                       SpotifyTrackMetadata.name track +:+ dq;
                     "**Artists**: " +:+ artist_names track;
                     "**Album**: " +:+
                       SpotifyAlbum.name (SpotifyTrackMetadata.album track);
                     "**Duration**: " +:+
                       formatDuration (SpotifyTrackMetadata.duration_ms track);
                     "**Popularity**: " +:+
                       interpolate string_of_Z
                         (SpotifyTrackMetadata.popularity track) +:+ "/100";
                     "**ID**: " +:+ SpotifyTrackMetadata.id track ]).
Proof.
  intros Hids Hlen Hremote.
  assert (tracks ≠ []) as Htracks by (intros ->; by destruct trackIds).
  exists (formattedBlocks trackIds tracks). split; [|split].
  - rewrite (run_getTracks_some remote _ _ Hids Htracks Hremote).
    by rewrite tracksText_header.
  - unfold formattedBlocks. by rewrite length_imap.
  - intros i id Hid.
    destruct (lookup_lt_is_Some_2 tracks i) as [slot Hslot].
    { rewrite Hlen. by eapply lookup_lt_Some. }
    exists slot, (formatTrack trackIds i slot).
    split; [done|]. split.
    { unfold formattedBlocks. by rewrite list_lookup_imap, Hslot. }
    rewrite formatTrack_slot_block, (interpolate_index_lookup _ _ _ Hid).
    split.
    + intros ->. unfold slot_block, absent_line, invalid_marker.
      by rewrite !append_assoc.
    + intros track ->. unfold slot_block, found_block, found_lines.
      unfold found_marker. by rewrite !append_assoc.
Qed.

Lemma get_tracks_one_block_per_slot_witness :
  ∃ blocks : list string,
    run sample_remote (getTracks_handler sample_ids) =
      Normal (text_result
        (batch_header 1 2 +:+ nl +:+ join nl blocks))
    ∧ length blocks = 2
    ∧ blocks !! 1 =
        Some (nl +:+ "[Invalid ID]: invalid-id-1 - Track not found").
Proof.
  destruct (get_tracks_one_block_per_slot sample_remote sample_ids
              sample_slots) as (blocks & Hrun & Hlen & Hblocks);
    [discriminate | reflexivity | reflexivity |].
  exists blocks. split; [exact Hrun|]. split; [exact Hlen|].
  destruct (Hblocks 1 "invalid-id-1" eq_refl)
    as (slot & block & Hslot & Hblock & Hnull & _).
  rewrite Hblock. f_equal. apply Hnull.
  injection Hslot as <-. reflexivity.
Defined.

(** ** Identifiers and their markers *)

Lemma slot_block_includes_id k id slot :
  (∀ track, slot = Value track → SpotifyTrackMetadata.id track = id) →
  includes (nl +:+ slot_block k id slot) id = true.
Proof.
  intros Hecho. apply includes_append_l. unfold slot_block.
  destruct slot as [| |track].
  1,2: apply (includes_middle "[Invalid ID]: " id " - Track not found").
  rewrite <- (Hecho track eq_refl).
  unfold found_block, found_lines.
  flatten_lines. repeat apply includes_append_l. apply includes_refl.
Qed.

Lemma slot_block_markers k id slot :
  xorb (startsWith (nl +:+ slot_block k id slot) (nl +:+ found_marker k))
       (startsWith (nl +:+ slot_block k id slot) (nl +:+ invalid_marker id))
  = true
  ∧ startsWith (nl +:+ slot_block k id slot) (nl +:+ found_marker k)
    = negb (falsy slot).
Proof.
  assert (startsWith (nl +:+ absent_line id) (nl +:+ invalid_marker id) = true)
    as Habsent.
  { apply startsWith_spec. exists " - Track not found".
    unfold absent_line. by rewrite !append_assoc. }
  assert (startsWith (nl +:+ absent_line id) (nl +:+ found_marker k) = false)
    as Hno.
  { apply (absent_line_no_heading id (string_of_nat k +:+ ".")). }
  destruct slot as [| |track]; unfold slot_block, falsy;
    rewrite ?Habsent, ?Hno; try done.
  rewrite found_block_no_invalid_marker.
  destruct (found_block_marker k track) as [rest ->].
  assert (startsWith (nl +:+ found_marker k +:+ rest) (nl +:+ found_marker k)
          = true) as ->; [|done].
  apply startsWith_spec. exists rest. by rewrite !append_assoc.
Qed.

(** C2, amended. In a batch whose result array has the length of the
    input and whose records echo their input identifier, every input
    identifier occurs in the response text, inside the block of its own
    position, and that block opens with exactly one of the two markers:
    the heading [## k.] of a found block, [k] the position counted from
    one, when the slot holds a record, the marker [[Invalid ID]: <id>]
    when it does not. The markers are those at the start of the block of
    the position; over the whole text they are not exclusive, as shown
    after the theorem. *)
Theorem get_tracks_each_id_marked_once (remote : collaborator)
    (trackIds : list string) (tracks : list (nullable Track)) :
  trackIds ≠ [] → length tracks = length trackIds →
  (∀ i track, tracks !! i = Some (Value track) →
     trackIds !! i = Some (SpotifyTrackMetadata.id track)) →
  remote _ (TracksGetMany trackIds) = Normal (Value tracks) →
  ∃ (text : string) (blocks : list string),
    run remote (getTracks_handler trackIds) = Normal (text_result text)
    ∧ text =
        batch_header (validCount tracks) (length trackIds) +:+ nl +:+
        join nl blocks
    ∧ length blocks = length trackIds
    ∧ ∀ i id, trackIds !! i = Some id →
        includes text id = true
        ∧ ∃ slot block,
            tracks !! i = Some slot
            ∧ blocks !! i = Some block
            ∧ includes block id = true
            ∧ xorb
                (startsWith block
                   (nl +:+ "## " +:+ string_of_nat (S i) +:+ "."))
                (startsWith block (nl +:+ "[Invalid ID]: " +:+ id))
              = true
            ∧ startsWith block (nl +:+ "## " +:+ string_of_nat (S i) +:+ ".")
              = negb (falsy slot).
Proof.
  intros Hids Hlen Hecho Hremote.
  assert (tracks ≠ []) as Htracks by (intros ->; by destruct trackIds).
  eexists _, (formattedBlocks trackIds tracks).
  split; [by apply run_getTracks_some|].
  split; [apply tracksText_header|].
  split; [unfold formattedBlocks; by rewrite length_imap|].
  intros i id Hid.
  destruct (lookup_lt_is_Some_2 tracks i) as [slot Hslot].
  { rewrite Hlen. by eapply lookup_lt_Some. }
  assert (formattedBlocks trackIds tracks !! i
          = Some (nl +:+ slot_block (S i) id slot)) as Hblock.
  { unfold formattedBlocks. rewrite list_lookup_imap, Hslot. simpl.
    by rewrite formatTrack_slot_block, (interpolate_index_lookup _ _ _ Hid). }
  assert (includes (nl +:+ slot_block (S i) id slot) id = true) as Hin.
  { apply slot_block_includes_id. intros track ->.
    specialize (Hecho i track Hslot). congruence. }
  split.
  - rewrite tracksText_header.
    destruct (join_lookup nl _ _ _ Hblock) as (pre & post & ->).
    apply includes_append_l, includes_append_l, includes_append_l.
    by apply includes_append_r.
  - exists slot. eexists. split; [exact Hslot|].
    split; [exact Hblock|]. split; [exact Hin|].
    apply slot_block_markers.
Qed.

Lemma get_tracks_each_id_marked_once_witness :
  ∃ (text : string) (blocks : list string),
    run sample_remote (getTracks_handler sample_ids) =
      Normal (text_result text)
    ∧ includes text "11dFghVXANMlKmJXsNCbNl" = true
    ∧ includes text "invalid-id-1" = true
    ∧ length blocks = 2.
Proof.
  destruct (get_tracks_each_id_marked_once sample_remote sample_ids
              sample_slots) as (text & blocks & Hrun & _ & Hlen & Hids).
  - discriminate.
  - reflexivity.
  - intros [|[|i]] track Hslot; [|discriminate..].
    injection Hslot as <-. reflexivity.
  - reflexivity.
  - exists text, blocks. split; [exact Hrun|].
    destruct (Hids 0 "11dFghVXANMlKmJXsNCbNl" eq_refl) as [Hfirst _].
    destruct (Hids 1 "invalid-id-1" eq_refl) as [Hsecond _].
    split; [exact Hfirst|]. split; [exact Hsecond | exact Hlen].
Defined.

(** C2, as the markers are found by a search of the whole text. The
    identifiers ["11dFghVXANMlKmJXsNCbNl"] and ["11dFghVXANMlKmJXsNCbNl0"]
    are resolved to a record that echoes the first and to [null]. The
    absent line of the second contains the invalid marker of the first, so
    the first identifier is found under both markers: under the heading
    [## 1.] of its block and under [[Invalid ID]: 11dFghVXANMlKmJXsNCbNl]. *)
Lemma whole_text_markers_not_exclusive :
  overlapping_ids ≠ []
  ∧ length overlapping_slots = length overlapping_ids
  ∧ (∀ i track, overlapping_slots !! i = Some (Value track) →
       overlapping_ids !! i = Some (SpotifyTrackMetadata.id track))
  ∧ (∀ slot, slot ∈ overlapping_slots → falsy slot = true → slot = Null)
  ∧ overlapping_remote _ (TracksGetMany overlapping_ids) =
      Normal (Value overlapping_slots)
  ∧ overlapping_ids !! 0 = Some "11dFghVXANMlKmJXsNCbNl"
  ∧ ∃ text,
      run overlapping_remote (getTracks_handler overlapping_ids) =
        Normal (text_result text)
      ∧ includes text (found_marker 1) = true
      ∧ includes text (invalid_marker "11dFghVXANMlKmJXsNCbNl") = true
      ∧ xorb (includes text (found_marker 1))
             (includes text (invalid_marker "11dFghVXANMlKmJXsNCbNl"))
        = false.
Proof.
  split; [discriminate|]. split; [reflexivity|]. split.
  { intros [|[|i]] track Hslot; [|discriminate..].
    injection Hslot as <-. reflexivity. }
  split.
  { intros slot Hslot%list_elem_of_In Hfalsy.
    destruct Hslot as [<-|[<-|[]]]; [discriminate Hfalsy | reflexivity]. }
  split; [reflexivity|]. split; [reflexivity|].
  eexists. split; [reflexivity|]. repeat split; by vm_compute.
Qed.

(** The same holds of an identifier given twice and resolved the first
    time only: its two positions show one marker each, and the text shows
    both for the one identifier. *)
Remark repeated_id_under_both_markers :
  ∃ text,
    run overlapping_remote (getTracks_handler repeated_ids) =
      Normal (text_result text)
    ∧ includes text (found_marker 1) = true
    ∧ includes text (invalid_marker "11dFghVXANMlKmJXsNCbNl") = true.
Proof. eexists. split; [reflexivity|]. split; by vm_compute. Qed.

(** ** The schema of [trackIds] *)

Lemma parse_strings (p : nat → list nat) (ids : list string) :
  concat (z.issues_of <$>
            imap (λ i item, z.string (p i) item) (JString <$> ids)) = []
  ∧ concat (z.data_of <$>
              imap (λ i item, z.string (p i) item) (JString <$> ids)) = ids.
Proof.
  revert p. induction ids as [|id ids IH]; intros p; [done|].
  destruct (IH (p ∘ S)) as [Hissues Hdata].
  rewrite fmap_cons, imap_cons, !fmap_cons. simpl. split.
  - exact Hissues.
  - f_equal. exact Hdata.
Qed.

Lemma trackIds_too_big (items : list jsval) :
  50 < length items →
  ∃ rest,
    z.safeParse getTracks_schema_trackIds (JArray items) =
    SafeParseError ({| code := too_big; path := [] |} :: rest).
Proof.
  intros Hlen%Nat.ltb_lt.
  unfold z.safeParse, getTracks_schema_trackIds, z.parse_array, z.size_issues.
  unfold z.max, z.array. cbn [z.maxLength z.element]. rewrite Hlen.
  simpl. eauto.
Qed.

Lemma trackIds_strings (ids : list string) :
  z.safeParse getTracks_schema_trackIds (JArray (JString <$> ids)) =
  if 50 <? length ids
  then SafeParseError [ {| code := too_big; path := [] |} ]
  else SafeParseSuccess ids.
Proof.
  unfold z.safeParse, getTracks_schema_trackIds, z.parse_array, z.size_issues.
  unfold z.max, z.array. cbn [z.maxLength z.element].
  destruct (parse_strings (λ i, [] ++ [i]) ids) as [Hissues Hdata].
  rewrite Hissues, Hdata, length_fmap.
  by destruct (50 <? length ids).
Qed.

(** C4. An array of more than fifty entries is rejected by the schema of
    [trackIds] with a [too_big] issue as its first issue (its only issue
    when the entries are strings), so the invocation ends there: the
    handler does not start and no remote call is made. An array of
    fifty identifiers, or fewer, passes and the handler starts on it. *)
Theorem get_tracks_schema_max_50 :
  (∀ items : list jsval, 50 < length items →
     ∃ rest,
       z.safeParse getTracks_schema_trackIds (JArray items) =
         SafeParseError ({| code := too_big; path := [] |} :: rest)
       ∧ invoke_get_tracks (JArray items) =
           Rejected ({| code := too_big; path := [] |} :: rest)
       ∧ ∀ remote,
           invocation_calls remote (invoke_get_tracks (JArray items)) = 0)
  ∧ (∀ ids : list string, 50 < length ids →
       z.safeParse getTracks_schema_trackIds (JArray (JString <$> ids)) =
       SafeParseError [ {| code := too_big; path := [] |} ])
  ∧ (∀ ids : list string, length ids ≤ 50 →
       z.safeParse getTracks_schema_trackIds (JArray (JString <$> ids)) =
         SafeParseSuccess ids
       ∧ invoke_get_tracks (JArray (JString <$> ids)) =
           Started (getTracks_handler ids)).
Proof.
  split; [|split].
  - intros items Hlen. destruct (trackIds_too_big items Hlen) as [rest Hrest].
    exists rest. unfold invoke_get_tracks. rewrite Hrest. by repeat split.
  - intros ids Hlen%Nat.ltb_lt. by rewrite trackIds_strings, Hlen.
  - intros ids Hlen. unfold invoke_get_tracks. rewrite trackIds_strings.
    assert ((50 <? length ids) = false) as Hfits.
    { by apply Nat.ltb_ge. }
    by rewrite Hfits.
Qed.

Lemma get_tracks_schema_max_50_witness :
  z.safeParse getTracks_schema_trackIds
    (JArray (JString <$> replicate 51 "11dFghVXANMlKmJXsNCbNl")) =
    SafeParseError [ {| code := too_big; path := [] |} ]
  ∧ z.safeParse getTracks_schema_trackIds
      (JArray (JString <$> replicate 50 "11dFghVXANMlKmJXsNCbNl")) =
      SafeParseSuccess (replicate 50 "11dFghVXANMlKmJXsNCbNl").
Proof.
  destruct get_tracks_schema_max_50 as (_ & Hbig & Hfits).
  split.
  - apply Hbig. rewrite length_replicate. lia.
  - apply Hfits. rewrite length_replicate. lia.
Defined.

(** ** Concrete scenarios *)

(** The identifier [11dFghVXANMlKmJXsNCbNl], resolving to a record of
    225000 ms, shows its duration as [3:45]. *)
Example duration_scenario :
  ∃ text,
    run sample_remote (getTrack_handler "11dFghVXANMlKmJXsNCbNl") =
      Normal (text_result text)
    ∧ includes text (nl +:+ "**Duration**: 3:45" +:+ nl) = true.
Proof. eexists. split; [reflexivity | by vm_compute]. Qed.

(** A batch of one found and one absent identifier. *)
Example mixed_batch_scenario :
  run sample_remote (getTracks_handler sample_ids) =
  Normal (text_result
    (join nl
       [ "# Track Metadata (1 of 2 tracks)";
         EmptyString;
         "## 1. " +:+ dq +:+ "Cut To The Feeling" +:+ dq;
         "**Artists**: Carly Rae Jepsen";
         "**Album**: Emotion: Side B";
         "**Duration**: 3:45";
         "**Popularity**: 85/100";
         "**ID**: 11dFghVXANMlKmJXsNCbNl";
         EmptyString;
         "[Invalid ID]: invalid-id-1 - Track not found" ])).
Proof. by vm_compute. Qed.

(** Durations below ten seconds keep two digits of seconds. *)
Example formatDuration_pads : formatDuration 65000 = "1:05".
Proof. by vm_compute. Qed.

(** * Further properties of [get_track] and [get_tracks] *)

(** X1. One round trip: [get_track] makes exactly one remote call, for the
    identifier it was given, and a non-empty batch makes exactly one
    call, carrying the whole list in its order, whatever the calls
    answer. *)
Theorem lookups_make_one_call (remote : collaborator) (trackId : string)
    (trackIds : list string) :
  trackIds ≠ [] →
  requests remote (getTrack_handler trackId) = [ existT _ (TracksGet trackId) ]
  ∧ requests remote (getTracks_handler trackIds) =
      [ existT _ (TracksGetMany trackIds) ]
  ∧ remote_calls remote (getTrack_handler trackId) = 1
  ∧ remote_calls remote (getTracks_handler trackIds) = 1.
Proof.
  intros Hids. destruct trackIds as [|id ids]; [done|].
  unfold getTrack_handler, getTracks_handler. simpl.
  destruct (remote _ (TracksGet trackId)) as [[| |track]|error];
    destruct (remote _ (TracksGetMany (id :: ids)))
      as [[| |[|slot slots]]|error']; by simpl.
Qed.

Lemma lookups_make_one_call_witness :
  requests sample_remote (getTracks_handler sample_ids) =
    [ existT _ (TracksGetMany sample_ids) ]
  ∧ remote_calls failing_remote (getTracks_handler sample_ids) = 1.
Proof.
  split.
  - apply (lookups_make_one_call sample_remote "11dFghVXANMlKmJXsNCbNl"
             sample_ids). discriminate.
  - apply (lookups_make_one_call failing_remote "11dFghVXANMlKmJXsNCbNl"
             sample_ids). discriminate.
Defined.

(** X2. A batch whose remote call gives nothing ([undefined], [null] or an
    empty array) is answered by the one line
    [No tracks found for the provided IDs], without the header of a
    batch response, even though identifiers were given. *)
Theorem get_tracks_nothing_found (remote : collaborator)
    (trackIds : list string) (answer : nullable (list (nullable Track))) :
  trackIds ≠ [] →
  remote _ (TracksGetMany trackIds) = Normal answer →
  answer = Undefined ∨ answer = Null ∨ answer = Value [] →
  run remote (getTracks_handler trackIds) =
    Normal (text_result "No tracks found for the provided IDs")
  ∧ includes "No tracks found for the provided IDs" "# Track Metadata" = false.
Proof.
  intros Hids Hremote Hanswer. split; [|by vm_compute].
  apply (run_getTracks_nothing remote _ answer); [done..|].
  destruct Hanswer as [->|[->| ->]]; auto.
Qed.

Lemma get_tracks_nothing_found_witness :
  run sample_remote_null (getTracks_handler sample_ids) =
    Normal (text_result "No tracks found for the provided IDs").
Proof.
  apply (get_tracks_nothing_found sample_remote_null sample_ids Null);
    [discriminate | reflexivity | right; left; reflexivity].
Defined.

Lemma non_null_and_null_slots tracks :
  non_null_slots tracks + null_slots tracks = length tracks.
Proof. induction tracks as [|[| |track] tracks IH]; simpl; lia. Qed.

(** X3. The count of the header never exceeds the slots of the result array:
    it is their number less the [null] ones. So when the array has the
    length of the input, the header never announces more tracks than
    were asked for. *)
Theorem header_count_bounded (remote : collaborator) (trackIds : list string)
    (tracks : list (nullable Track)) :
  trackIds ≠ [] → length tracks = length trackIds →
  remote _ (TracksGetMany trackIds) = Normal (Value tracks) →
  validCount tracks + null_slots tracks = length tracks
  ∧ ∃ count rest,
      run remote (getTracks_handler trackIds) =
        Normal (text_result
          (batch_header count (length trackIds) +:+ nl +:+ rest))
      ∧ count ≤ length trackIds.
Proof.
  intros Hids Hlen Hremote.
  pose proof (non_null_and_null_slots tracks) as Hsum.
  rewrite <- validCount_non_null in Hsum. split; [done|].
  assert (tracks ≠ []) as Htracks by (intros ->; by destruct trackIds).
  exists (validCount tracks), (join nl (formattedBlocks trackIds tracks)).
  split; [|lia].
  rewrite (run_getTracks_some remote _ _ Hids Htracks Hremote).
  by rewrite tracksText_header.
Qed.

Lemma header_count_bounded_witness :
  validCount sample_slots + null_slots sample_slots = 2
  ∧ ∃ count rest,
      run sample_remote (getTracks_handler sample_ids) =
        Normal (text_result (batch_header count 2 +:+ nl +:+ rest))
      ∧ count ≤ 2.
Proof.
  apply (header_count_bounded sample_remote sample_ids sample_slots);
    [discriminate | reflexivity | reflexivity].
Defined.

(** X4. The body follows the result array, not the input: it has one block
    per slot of the array the remote call gave, while the header still
    names the number of input identifiers. An absent slot beyond the end
    of the input has no identifier to show and reads [undefined]. *)
Theorem blocks_follow_result_array (remote : collaborator)
    (trackIds : list string) (tracks : list (nullable Track)) :
  trackIds ≠ [] → tracks ≠ [] →
  remote _ (TracksGetMany trackIds) = Normal (Value tracks) →
  ∃ blocks,
    run remote (getTracks_handler trackIds) =
      Normal (text_result
        (batch_header (validCount tracks) (length trackIds) +:+ nl +:+
         join nl blocks))
    ∧ length blocks = length tracks
    ∧ ∀ i slot, tracks !! i = Some slot → falsy slot = true →
        length trackIds ≤ i →
        blocks !! i =
          Some (nl +:+ "[Invalid ID]: undefined - Track not found").
Proof.
  intros Hids Htracks Hremote. exists (formattedBlocks trackIds tracks).
  split; [|split].
  - rewrite (run_getTracks_some remote _ _ Hids Htracks Hremote).
    by rewrite tracksText_header.
  - unfold formattedBlocks. by rewrite length_imap.
  - intros i slot Hslot Hfalsy Hi.
    unfold formattedBlocks. rewrite list_lookup_imap, Hslot. simpl.
    unfold formatTrack, interpolate_index.
    rewrite (lookup_ge_None_2 trackIds i Hi).
    by destruct slot.
Qed.

Lemma blocks_follow_result_array_witness :
  ∃ blocks,
    run (answering (Normal Null) (Normal (Value long_slots)))
      (getTracks_handler sample_ids) =
      Normal (text_result (batch_header 1 2 +:+ nl +:+ join nl blocks))
    ∧ length blocks = 3
    ∧ blocks !! 2 = Some (nl +:+ "[Invalid ID]: undefined - Track not found").
Proof.
  destruct (blocks_follow_result_array
              (answering (Normal Null) (Normal (Value long_slots)))
              sample_ids long_slots)
    as (blocks & Hrun & Hlen & Hexcess);
    [discriminate | discriminate | reflexivity |].
  exists blocks. split; [exact Hrun|]. split; [exact Hlen|].
  apply (Hexcess 2 Null); [reflexivity | reflexivity | simpl; lia].
Defined.

Lemma absent_blocks_imap (f : nat → nullable Track → string) tracks :
  (∀ index track,
     startsWith (f index (Value track)) (nl +:+ "[Invalid ID]: ") = false) →
  (∀ index slot, falsy slot = true →
     startsWith (f index slot) (nl +:+ "[Invalid ID]: ") = true) →
  absent_blocks (imap f tracks) + records tracks = length tracks.
Proof.
  unfold absent_blocks. revert f.
  induction tracks as [|slot tracks IH]; intros f Hfound Habsent; [done|].
  rewrite imap_cons. cbn [List.filter].
  assert (length (List.filter
            (λ block, startsWith block (nl +:+ "[Invalid ID]: "))
            (imap (f ∘ S) tracks)) + records tracks = length tracks) as Hrest.
  { apply IH; intros; [apply Hfound | by apply Habsent]. }
  destruct slot as [| |track].
  - rewrite (Habsent 0 Undefined eq_refl). simpl. lia.
  - rewrite (Habsent 0 Null eq_refl). simpl. lia.
  - rewrite Hfound. simpl. lia.
Qed.

Lemma formattedBlocks_kinds trackIds tracks :
  found_blocks (formattedBlocks trackIds tracks)
  + absent_blocks (formattedBlocks trackIds tracks) = length tracks.
Proof.
  rewrite found_blocks_records, Nat.add_comm. apply absent_blocks_imap.
  - intros index track. rewrite formatTrack_slot_block.
    apply (found_block_no_invalid_marker _ _ EmptyString).
  - intros index slot Hslot. rewrite formatTrack_slot_block.
    apply startsWith_spec. unfold slot_block, absent_line, invalid_marker.
    destruct slot; [| |done]; rewrite !append_assoc; eauto.
Qed.

(** X5. Every block of the body of a batch response is of exactly one
    kind: the blocks that open with a [## ] heading are as many as the
    records of the result array, and together with the lines that open
    with [[Invalid ID]: ] they are as many as its slots, one per record
    and one per slot without a record. *)
Theorem blocks_found_or_absent (remote : collaborator)
    (trackIds : list string) (tracks : list (nullable Track)) :
  trackIds ≠ [] → tracks ≠ [] →
  remote _ (TracksGetMany trackIds) = Normal (Value tracks) →
  ∃ blocks : list string,
    run remote (getTracks_handler trackIds) =
      Normal (text_result
        (batch_header (validCount tracks) (length trackIds) +:+ nl +:+
         join nl blocks))
    ∧ length blocks = length tracks
    ∧ found_blocks blocks = records tracks
    ∧ found_blocks blocks + absent_blocks blocks = length tracks.
Proof.
  intros Hids Htracks Hremote. exists (formattedBlocks trackIds tracks).
  split.
  { rewrite (run_getTracks_some remote _ _ Hids Htracks Hremote).
    by rewrite tracksText_header. }
  split; [unfold formattedBlocks; by rewrite length_imap|].
  split; [apply found_blocks_records | apply formattedBlocks_kinds].
Qed.

Lemma blocks_found_or_absent_witness :
  ∃ blocks : list string,
    run sample_remote (getTracks_handler sample_ids) =
      Normal (text_result (batch_header 1 2 +:+ nl +:+ join nl blocks))
    ∧ found_blocks blocks = 1
    ∧ found_blocks blocks + absent_blocks blocks = 2.
Proof.
  destruct (blocks_found_or_absent sample_remote sample_ids sample_slots)
    as (blocks & Hrun & _ & Hfound & Hall);
    [discriminate | discriminate | reflexivity |].
  exists blocks. split; [exact Hrun|]. split; [exact Hfound | exact Hall].
Defined.

(** X6. An empty string counts as missing: a record whose [preview_url] is
    the empty string shows [Not available], and one whose ISRC is the
    empty string shows [N/A], as if the field were not there. *)
Theorem empty_fields_fall_back (remote : collaborator) (trackId : string)
    (track : Track) :
  remote _ (TracksGet trackId) = Normal (Value track) →
  ∃ lines,
    run remote (getTrack_handler trackId) =
      Normal (text_result
        ("# Track Metadata" +:+ nl +:+ nl +:+ join nl lines))
    ∧ length lines = 10
    ∧ (optional_isrc (SpotifyTrackMetadata.external_ids track)
         = Value EmptyString →
       lines !! 6 = Some "**ISRC**: N/A")
    ∧ (SpotifyTrackMetadata.preview_url track = Value EmptyString →
       lines !! 7 = Some "**Preview**: Not available").
Proof.
  intros Hremote. exists (single_lines track).
  split; [by apply run_getTrack_found|]. split; [done|].
  unfold single_lines. split; intros ->; reflexivity.
Qed.

Lemma empty_fields_fall_back_witness :
  ∃ lines,
    run (answering (Normal (Value sample_track_empty_fields)) (Normal Null))
      (getTrack_handler "11dFghVXANMlKmJXsNCbNl") =
      Normal (text_result
        ("# Track Metadata" +:+ nl +:+ nl +:+ join nl lines))
    ∧ lines !! 6 = Some "**ISRC**: N/A"
    ∧ lines !! 7 = Some "**Preview**: Not available".
Proof.
  destruct (empty_fields_fall_back
              (answering (Normal (Value sample_track_empty_fields))
                 (Normal Null))
              "11dFghVXANMlKmJXsNCbNl" sample_track_empty_fields eq_refl)
    as (lines & Hrun & _ & Hisrc & Hpreview).
  exists lines. split; [exact Hrun|].
  split; [exact (Hisrc eq_refl) | exact (Hpreview eq_refl)].
Defined.

(** ** What passes the schemas *)

Lemma parse_strings_inv (p : nat → list nat) (items : list jsval) :
  concat (z.issues_of <$> imap (λ i item, z.string (p i) item) items) = [] →
  items =
  JString <$>
    concat (z.data_of <$> imap (λ i item, z.string (p i) item) items).
Proof.
  revert p. induction items as [|item items IH]; intros p; [done|].
  rewrite imap_cons, !fmap_cons. simpl. intros [Hitem Hrest]%app_eq_nil.
  destruct item as [| |b|n|s|nested]; try discriminate Hitem.
  simpl. f_equal. apply (IH (p ∘ S)). exact Hrest.
Qed.

(** X7. The schema of [trackIds] accepts arrays of at most fifty strings and
    nothing else, and hands on what it was given: whenever it succeeds,
    the argument was an array of strings, of length fifty or less, and
    the parsed value is the list of these strings in their order. *)
Theorem trackIds_schema_sound (trackIds : jsval) (ids : list string) :
  z.safeParse getTracks_schema_trackIds trackIds = SafeParseSuccess ids →
  trackIds = JArray (JString <$> ids) ∧ length ids ≤ 50.
Proof.
  unfold z.safeParse, getTracks_schema_trackIds.
  unfold z.parse_array, z.size_issues, z.max, z.array.
  cbn [z.maxLength z.element].
  destruct trackIds as [| |b|n|s|items]; try discriminate.
  destruct (50 <? length items) eqn:Hsize; [discriminate|].
  apply Nat.ltb_ge in Hsize. rewrite app_nil_l.
  destruct (concat (z.issues_of <$> _)) eqn:Hissues; [|discriminate].
  intros [= <-].
  pose proof (parse_strings_inv _ _ Hissues) as Hitems.
  split; [by rewrite Hitems at 1|].
  rewrite Hitems in Hsize at 1. by rewrite length_fmap in Hsize.
Qed.

Lemma trackIds_schema_sound_witness :
  JArray [ JString "11dFghVXANMlKmJXsNCbNl"; JString "invalid-id-1" ] =
    JArray (JString <$> sample_ids)
  ∧ length sample_ids ≤ 50.
Proof.
  apply (trackIds_schema_sound
           (JArray [ JString "11dFghVXANMlKmJXsNCbNl"; JString "invalid-id-1" ])
           sample_ids).
  reflexivity.
Defined.

(** * Properties of the other read tools *)

(** ** Strings, once more *)

Lemma length_append (s t : string) :
  String.length (s +:+ t) = String.length s + String.length t.
Proof.
  induction s as [|c s IH]; [done|]. rewrite append_cons. simpl. by rewrite IH.
Qed.

Lemma join_head sep x (xs : list string) :
  ∃ rest, join sep (x :: xs) = x +:+ rest.
Proof.
  destruct xs as [|y xs].
  - exists EmptyString. by rewrite join_singleton, append_empty_r.
  - rewrite join_cons. eauto.
Qed.

Lemma startsWith_cancel p a b :
  startsWith (p +:+ a) (p +:+ b) = startsWith a b.
Proof.
  unfold startsWith. induction p as [|c p IH]; [done|].
  rewrite !append_cons. simpl. by destruct (ascii_dec c c).
Qed.

Lemma includes_prefix3 a b c rest :
  includes (a +:+ b +:+ c +:+ rest) (a +:+ b +:+ c) = true.
Proof.
  apply includes_spec. exists EmptyString, rest.
  rewrite append_nil_l. by rewrite !append_assoc.
Qed.

(** A numbered line is not empty. *)
Lemma numbered_not_empty (number rest : string) :
  (0 <? String.length (number +:+ ". " +:+ rest)) = true.
Proof. apply Nat.ltb_lt. rewrite !length_append. simpl. lia. Qed.

(** The joined lines of an array whose lines all open with a number. *)
Lemma numbered_lines {A} (f : nat → A → string) (items : list A) :
  (∀ i x, ∃ rest, f i x = string_of_nat (i + 1) +:+ ". " +:+ rest) →
  (items = [] → join nl (imap f items) = EmptyString)
  ∧ (items ≠ [] → (0 <? String.length (join nl (imap f items))) = true)
  ∧ ∀ i line, imap f items !! i = Some line →
      startsWith line (string_of_nat (S i) +:+ ". ") = true.
Proof.
  intros Hf. split; [by intros ->|]. split.
  - destruct items as [|x items]; [done|]. intros _.
    rewrite imap_cons.
    destruct (join_head nl (f 0 x) (imap (f ∘ S) items)) as [rest ->].
    destruct (Hf 0 x) as [rest' ->].
    rewrite !append_assoc. apply numbered_not_empty.
  - intros i line. rewrite list_lookup_imap.
    destruct (items !! i) as [x|]; [|done]. intros [= <-].
    destruct (Hf i x) as [rest ->].
    rewrite Nat.add_1_r, <- append_assoc. apply startsWith_append.
Qed.

(** ** [searchSpotify] *)

Lemma search_lines_numbered (type : Read.SearchType)
    (results : Read.SearchResults.t) :
  ∃ lines,
    Read.formattedResults type results = join nl lines
    ∧ length lines = Read.requested_items type results
    ∧ (lines ≠ [] →
       (0 <? String.length (Read.formattedResults type results)) = true)
    ∧ ∀ i line, lines !! i = Some line →
        startsWith line (string_of_nat (S i) +:+ ". ") = true.
Proof.
  assert (∀ A (f : nat → A → string) (page : nullable (Read.Page.t A)),
    (∀ i x, ∃ rest, f i x = string_of_nat (i + 1) +:+ ". " +:+ rest) →
    ∃ lines,
      match page with
      | Value page => join nl (imap f (Read.Page.items page))
      | _ => EmptyString
      end = join nl lines
      ∧ length lines = Read.page_size page
      ∧ (lines ≠ [] →
         (0 <? String.length
                 match page with
                 | Value page => join nl (imap f (Read.Page.items page))
                 | _ => EmptyString
                 end) = true)
      ∧ ∀ i line, lines !! i = Some line →
          startsWith line (string_of_nat (S i) +:+ ". ") = true) as Hpage.
  { intros A f page Hf.
    destruct page as [| |page]; [by exists [].. |].
    destruct (numbered_lines f (Read.Page.items page) Hf) as (_ & Hpos & Hnum).
    exists (imap f (Read.Page.items page)).
    split; [done|]. split; [by rewrite length_imap|]. split; [|done].
    intros Hne. apply Hpos. intros Hitems. by rewrite Hitems in Hne. }
  destruct type; apply Hpage; intros i x.
  - unfold Read.search_track_line. eauto.
  - unfold Read.search_album_line. eauto.
  - unfold Read.search_artist_line. eauto.
  - unfold Read.search_playlist_line. eauto.
Qed.

(** X8. [searchSpotify] never raises: it settles on one text item whatever
    the remote call does, and when the call throws, the text is
    [Error searching for <type>s: ] followed by the message. *)
Theorem search_never_raises (remote : Read.collaborator Read.readE)
    (query : string) (type : Read.SearchType) (limit : option Z) :
  ∃ text,
    Read.run remote (Read.searchSpotify_handler query type limit) =
      Normal (text_result text)
    ∧ ∀ error,
        remote _ (Read.Search query [type] (default 10%Z limit)) =
          Throw error →
        text =
          "Error searching for " +:+ Read.type_name type +:+ "s: " +:+
          error_text error.
Proof.
  unfold Read.searchSpotify_handler. simpl.
  destruct (remote _ (Read.Search query [type] (default 10%Z limit)))
    as [results|error]; simpl.
  - eexists. split; [reflexivity|]. by intros error.
  - eexists. split; [reflexivity|]. by intros ? [= <-].
Qed.

Lemma search_never_raises_witness :
  Read.run (Read.answering Read.failing_answers)
    (Read.searchSpotify_handler "feeling" Read.SearchAlbum None) =
  Normal (text_result "Error searching for albums: Bad OAuth request").
Proof.
  destruct (search_never_raises (Read.answering Read.failing_answers)
              "feeling" Read.SearchAlbum None) as (text & Hrun & Herror).
  rewrite Hrun. by rewrite (Herror (ErrorObject "Bad OAuth request") eq_refl).
Defined.

(** X9. The search shows the page of the requested type and nothing else:
    with no item of that type (the page missing or empty) the text is
    [No <type> results found for "<query>"], whatever the other pages
    hold; otherwise it is the title followed by one numbered line per
    item of that page, in the order of the page. *)
Theorem search_lists_requested_page (remote : Read.collaborator Read.readE)
    (query : string) (type : Read.SearchType) (limit : option Z)
    (results : Read.SearchResults.t) :
  remote _ (Read.Search query [type] (default 10%Z limit)) = Normal results →
  (Read.requested_items type results = 0 →
   Read.run remote (Read.searchSpotify_handler query type limit) =
     Normal (text_result
       ("No " +:+ Read.type_name type +:+ " results found for " +:+ dq +:+
        query +:+ dq)))
  ∧ (0 < Read.requested_items type results →
     ∃ lines,
       Read.run remote (Read.searchSpotify_handler query type limit) =
         Normal (text_result
           ("# Search results for " +:+ dq +:+ query +:+ dq +:+ " (type: " +:+
            Read.type_name type +:+ ")" +:+ nl +:+ nl +:+ join nl lines))
       ∧ length lines = Read.requested_items type results
       ∧ ∀ i line, lines !! i = Some line →
           startsWith line (string_of_nat (S i) +:+ ". ") = true).
Proof.
  intros Hremote.
  destruct (search_lines_numbered type results)
    as (lines & Hlines & Hlen & Hpos & Hnum).
  unfold Read.searchSpotify_handler. simpl. rewrite Hremote. simpl.
  split.
  - intros Hzero. rewrite Hzero in Hlen.
    destruct lines; [|done]. by rewrite Hlines.
  - intros Hsome. exists lines. rewrite Hpos.
    + by rewrite Hlines.
    + intros ->. simpl in Hlen. lia.
Qed.

Lemma search_lists_requested_page_witness :
  Read.run (Read.answering Read.sample_answers)
    (Read.searchSpotify_handler "feeling" Read.SearchAlbum (Some 5%Z)) =
    Normal (text_result
      ("No album results found for " +:+ dq +:+ "feeling" +:+ dq))
  ∧ ∃ lines,
      Read.run (Read.answering Read.sample_answers)
        (Read.searchSpotify_handler "feeling" Read.SearchTrack None) =
        Normal (text_result
          ("# Search results for " +:+ dq +:+ "feeling" +:+ dq +:+
           " (type: track)" +:+ nl +:+ nl +:+ join nl lines))
      ∧ length lines = 1.
Proof.
  split.
  - apply (search_lists_requested_page (Read.answering Read.sample_answers)
             "feeling" Read.SearchAlbum (Some 5%Z) Read.sample_search eq_refl).
    reflexivity.
  - destruct (search_lists_requested_page
                (Read.answering Read.sample_answers)
                "feeling" Read.SearchTrack None Read.sample_search eq_refl)
      as [_ Hsome].
    destruct Hsome as (lines & Hrun & Hlen & _); [simpl; lia|].
    exists lines. split; [exact Hrun | exact Hlen].
Defined.

(** ** [getAvailableDevices] *)

(** X10. [getAvailableDevices] never raises: it settles on one text item
    whatever the remote call does, and when the call throws, the text is
    [Error getting available devices: ] followed by the message. *)
Theorem devices_never_raise (remote : Read.collaborator Read.readE) :
  ∃ text,
    Read.run remote Read.getAvailableDevices_handler =
      Normal (text_result text)
    ∧ ∀ error, remote _ Read.GetAvailableDevices = Throw error →
        text = "Error getting available devices: " +:+ error_text error.
Proof.
  unfold Read.getAvailableDevices_handler. simpl.
  destruct (remote _ Read.GetAvailableDevices) as [[[| |[|d ds]]]|error];
    simpl; eexists; (split; [reflexivity|]); try done.
  by intros ? [= <-].
Qed.

Lemma devices_never_raise_witness :
  Read.run (Read.answering Read.failing_answers)
    Read.getAvailableDevices_handler =
  Normal (text_result "Error getting available devices: Bad OAuth request").
Proof.
  destruct (devices_never_raise (Read.answering Read.failing_answers))
    as (text & Hrun & Herror).
  rewrite Hrun. by rewrite (Herror (ErrorObject "Bad OAuth request") eq_refl).
Defined.

Lemma device_line_parts i device :
  ∃ volume,
    Read.device_line i device =
      (string_of_nat (S i) +:+ ". " +:+ Read.Device.name device +:+ " (" +:+
       Read.Device.type device +:+ ")") +:+
      (if Read.Device.is_restricted device then " (Restricted)"
       else EmptyString) +:+
      nl +:+ "   Status: " +:+
      (if Read.Device.is_active device then "▶ Active" else "○ Inactive") +:+
      " | Volume: " +:+ volume +:+ " | ID: " +:+
      interpolate id (Read.Device.id device)
    ∧ (Read.Device.volume_percent device = Null → volume = "N/A")
    ∧ (Read.Device.volume_percent device = Undefined →
       volume = "undefined%")
    ∧ (∀ n, Read.Device.volume_percent device = Value n →
         volume = string_of_Z n +:+ "%").
Proof.
  unfold Read.device_line. cbv zeta. rewrite Nat.add_1_r.
  exists (match Read.Device.volume_percent device with
          | Null => "N/A"
          | volume_percent => interpolate string_of_Z volume_percent +:+ "%"
          end).
  split; [rewrite !append_assoc; reflexivity|].
  split; [by intros ->|]. split; [by intros ->|]. by intros n ->.
Qed.

(** X11. The device list has one entry per device, in the order the remote
    call gave them, separated by an empty line. Entry [i] (counted from
    one) opens with [i. <name> (<type>)], followed by [ (Restricted)]
    exactly when the device is restricted; its volume reads [N/A] when
    the device reports [null], [<n>%] when it reports a number, and
    [undefined%] when it reports nothing, as only [null] is guarded.
    With no device (the list missing or empty) the text is the fixed
    hint to open Spotify. *)
Theorem devices_listing (remote : Read.collaborator Read.readE)
    (answer : Read.Devices.t) :
  remote _ Read.GetAvailableDevices = Normal answer →
  (falsy (Read.Devices.devices answer) = true
   ∨ Read.Devices.devices answer = Value [] →
   Read.run remote Read.getAvailableDevices_handler =
     Normal (text_result
       ("No available devices found. " +:+
        "Make sure Spotify is open on at least one device.")))
  ∧ ∀ devices, Read.Devices.devices answer = Value devices → devices ≠ [] →
      ∃ entries,
        Read.run remote Read.getAvailableDevices_handler =
          Normal (text_result
            ("# Available Spotify Devices" +:+ nl +:+ nl +:+
             join (nl +:+ nl) entries))
        ∧ length entries = length devices
        ∧ ∀ i device, devices !! i = Some device →
            ∃ entry,
              entries !! i = Some entry
              ∧ startsWith entry
                  (string_of_nat (S i) +:+ ". " +:+ Read.Device.name device +:+
                   " (" +:+ Read.Device.type device +:+ ")") = true
              ∧ startsWith entry
                  ((string_of_nat (S i) +:+ ". " +:+
                    Read.Device.name device +:+ " (" +:+
                    Read.Device.type device +:+ ")") +:+ " (Restricted)")
                = Read.Device.is_restricted device
              ∧ (Read.Device.volume_percent device = Null →
                 includes entry " | Volume: N/A | ID: " = true)
              ∧ (Read.Device.volume_percent device = Undefined →
                 includes entry " | Volume: undefined% | ID: " = true)
              ∧ (∀ n, Read.Device.volume_percent device = Value n →
                 includes entry
                   (" | Volume: " +:+ string_of_Z n +:+ "% | ID: ") = true).
Proof.
  intros Hremote. unfold Read.getAvailableDevices_handler. simpl.
  rewrite Hremote. simpl. split.
  - intros [Hnone| ->]; [|done].
    by destruct (Read.Devices.devices answer).
  - intros devices -> Hdevices.
    destruct devices as [|d ds]; [done|]. simpl.
    exists (imap Read.device_line (d :: ds)).
    split; [done|]. split; [by rewrite length_imap|].
    intros i device Hi. exists (Read.device_line i device).
    split; [by rewrite list_lookup_imap, Hi|].
    destruct (device_line_parts i device)
      as (volume & -> & Hnull & Hmissing & Hnumber).
    split; [apply startsWith_append|]. split.
    + rewrite startsWith_cancel.
      destruct (Read.Device.is_restricted device).
      * apply startsWith_append.
      * by unfold nl; rewrite append_nil_l, !append_cons.
    + split.
      * intros Hvolume. rewrite (Hnull Hvolume).
        do 5 apply includes_append_l.
        apply (includes_prefix3 " | Volume: " "N/A" " | ID: ").
      * split.
        { intros Hvolume. rewrite (Hmissing Hvolume).
          do 5 apply includes_append_l.
          apply (includes_prefix3 " | Volume: " "undefined%" " | ID: "). }
        intros n Hvolume. rewrite (Hnumber n Hvolume).
        do 5 apply includes_append_l. rewrite !append_assoc.
        apply (includes_prefix3 " | Volume: " (string_of_Z n) "% | ID: "
                 (interpolate id (Read.Device.id device))).
Qed.

Lemma devices_listing_witness :
  ∃ entries,
    Read.run (Read.answering Read.sample_answers)
      Read.getAvailableDevices_handler =
      Normal (text_result
        ("# Available Spotify Devices" +:+ nl +:+ nl +:+
         join (nl +:+ nl) entries))
    ∧ length entries = 2
    ∧ ∃ entry,
        entries !! 1 = Some entry
        ∧ startsWith entry "2. Kitchen (Speaker) (Restricted)" = true
        ∧ includes entry " | Volume: N/A | ID: " = true.
Proof.
  destruct (devices_listing (Read.answering Read.sample_answers)
              (Read.Devices.mk
                 (Value [ Read.sample_phone; Read.sample_speaker ])) eq_refl)
    as [_ Hsome].
  destruct (Hsome [ Read.sample_phone; Read.sample_speaker ] eq_refl)
    as (entries & Hrun & Hlen & Hentries); [discriminate|].
  exists entries. split; [exact Hrun|]. split; [exact Hlen|].
  destruct (Hentries 1 Read.sample_speaker eq_refl)
    as (entry & Hentry & _ & Hrestricted & Hvolume & _ & _).
  exists entry. split; [exact Hentry|].
  split; [exact Hrestricted | exact (Hvolume eq_refl)].
Defined.

(** ** [getQueue] *)

(** X12. [getQueue] never raises: it settles on one text item whatever the
    remote call does, and when the call throws, the text is
    [Error fetching queue: ] followed by the message. *)
Theorem queue_never_raises (remote : Read.collaborator Read.readE)
    (limit : option Z) :
  ∃ text,
    Read.run remote (Read.getQueue_handler limit) = Normal (text_result text)
    ∧ ∀ error, remote _ Read.GetUsersQueue = Throw error →
        text = "Error fetching queue: " +:+ error_text error.
Proof.
  unfold Read.getQueue_handler. simpl.
  destruct (remote _ Read.GetUsersQueue) as [queue|error]; simpl.
  - destruct (length _ =? 0); simpl; eexists; split; done.
  - eexists. split; [reflexivity|]. by intros ? [= <-].
Qed.

Lemma queue_never_raises_witness :
  Read.run (Read.answering Read.failing_answers)
    (Read.getQueue_handler (Some 5%Z)) =
  Normal (text_result "Error fetching queue: Bad OAuth request").
Proof.
  destruct (queue_never_raises (Read.answering Read.failing_answers)
              (Some 5%Z)) as (text & Hrun & Herror).
  rewrite Hrun. by rewrite (Herror (ErrorObject "Bad OAuth request") eq_refl).
Defined.




(** X14. With nothing upcoming (no queue, no list in it, or an empty list)
    the queue answers with the current line and
    [No upcoming items in the queue], whatever the limit; and with
    nothing current the current line is
    [Nothing is currently playing]. *)
Theorem queue_without_upcoming (remote : Read.collaborator Read.readE)
    (limit : option Z) (answer : nullable Read.Queue.t) :
  remote _ Read.GetUsersQueue = Normal answer →
  falsy (Read.optional Read.Queue.queue answer) = true
  ∨ Read.optional Read.Queue.queue answer = Value [] →
  Read.run remote (Read.getQueue_handler limit) =
    Normal (text_result
      ("# Spotify Queue" +:+ nl +:+ nl +:+
       Read.currentText (Read.optional Read.Queue.currently_playing answer) +:+
       nl +:+ nl +:+ "No upcoming items in the queue"))
  ∧ (falsy (Read.optional Read.Queue.currently_playing answer) = true →
     Read.currentText (Read.optional Read.Queue.currently_playing answer) =
       "Nothing is currently playing").
Proof.
  intros Hremote Hnone. unfold Read.getQueue_handler. simpl.
  rewrite Hremote. simpl. split.
  - assert (nullish_or (Read.optional Read.Queue.queue answer) [] = []) as ->.
    { destruct Hnone as [Hnone| ->]; [|done].
      by destruct (Read.optional Read.Queue.queue answer). }
    simpl. by rewrite !append_assoc.
  - by destruct (Read.optional Read.Queue.currently_playing answer).
Qed.

Lemma queue_without_upcoming_witness :
  Read.run (Read.answering Read.quiet_answers) (Read.getQueue_handler None) =
  Normal (text_result
    ("# Spotify Queue" +:+ nl +:+ nl +:+ "Nothing is currently playing" +:+
     nl +:+ nl +:+ "No upcoming items in the queue")).
Proof.
  eapply (queue_without_upcoming _ None Null); [reflexivity|].
  left. reflexivity.
Defined.

(** ** The tools without a [catch] *)

(** X15. [getMyPlaylists], [getPlaylistTracks], [getRecentlyPlayed] and
    [getUsersSavedTracks] have no [catch]: what their remote call throws
    is what the handler throws, unchanged, and no text is produced. *)
Theorem unguarded_tools_propagate (remote : Read.collaborator Read.readE)
    (js : Read.Number.ops)
    (toLocaleDateString toLocaleString : string → string)
    (playlistId : string) (limit offset : option Z) (error : thrown) :
  (remote _ (Read.Playlists (default 50%Z limit)) = Throw error →
   Read.run remote (Read.getMyPlaylists_handler limit) = Throw error)
  ∧ (remote _ (Read.GetPlaylistItems playlistId (default 50%Z limit)
                 (default 0%Z offset)) = Throw error →
     Read.run remote
       (Read.getPlaylistTracks_handler js playlistId limit offset)
       = Throw error)
  ∧ (remote _ (Read.GetRecentlyPlayedTracks (default 50%Z limit))
       = Throw error →
     Read.run remote (Read.getRecentlyPlayed_handler toLocaleString limit)
       = Throw error)
  ∧ (remote _ (Read.SavedTracks (default 50%Z limit) (default 0%Z offset))
       = Throw error →
     Read.run remote
       (Read.getUsersSavedTracks_handler toLocaleDateString js limit offset)
       = Throw error).
Proof.
  unfold Read.getMyPlaylists_handler, Read.getPlaylistTracks_handler.
  unfold Read.getRecentlyPlayed_handler, Read.getUsersSavedTracks_handler.
  simpl. repeat split; by intros ->.
Qed.

Lemma unguarded_tools_propagate_witness :
  Read.run (Read.answering Read.failing_answers)
    (Read.getMyPlaylists_handler None) =
    Throw (ErrorObject "Bad OAuth request")
  ∧ Read.run (Read.answering Read.failing_answers)
      (Read.getPlaylistTracks_handler Read.Number.integers
         "37i9dQZF1DXcBWIGoYBM5M" None None) =
    Throw (ErrorObject "Bad OAuth request").
Proof.
  destruct (unguarded_tools_propagate (Read.answering Read.failing_answers)
              Read.Number.integers Read.sample_date Read.sample_time "37i9dQZF1DXcBWIGoYBM5M"
              None None (ErrorObject "Bad OAuth request"))
    as (Hplaylists & Htracks & _).
  split; [exact (Hplaylists eq_refl) | exact (Htracks eq_refl)].
Defined.

(** ** [getMyPlaylists] *)

(** X16. The playlist list has one numbered line per playlist, in the order
    of the page, and a playlist whose track count is missing (no
    [tracks], no [total]) or zero is listed with [(0 tracks)]; with no
    playlist the text is [You don't have any playlists on Spotify]. *)
Theorem playlists_listing (remote : Read.collaborator Read.readE)
    (limit : option Z) (page : Read.Page.t Read.Playlist.t) :
  remote _ (Read.Playlists (default 50%Z limit)) = Normal page →
  (Read.Page.items page = [] →
   Read.run remote (Read.getMyPlaylists_handler limit) =
     Normal (text_result "You don't have any playlists on Spotify"))
  ∧ (Read.Page.items page ≠ [] →
     ∃ lines,
       Read.run remote (Read.getMyPlaylists_handler limit) =
         Normal (text_result
           ("# Your Spotify Playlists" +:+ nl +:+ nl +:+ join nl lines))
       ∧ length lines = length (Read.Page.items page)
       ∧ ∀ i playlist, Read.Page.items page !! i = Some playlist →
           ∃ line,
             lines !! i = Some line
             ∧ startsWith line (string_of_nat (S i) +:+ ". ") = true
             ∧ (falsy (Read.optional Read.TracksRef.total
                         (Read.Playlist.tracks playlist)) = true →
                includes line (" (0 tracks) - ID: ") = true)).
Proof.
  intros Hremote. unfold Read.getMyPlaylists_handler. simpl.
  rewrite Hremote. simpl. split.
  - by intros ->.
  - intros Hitems.
    destruct (Read.Page.items page) as [|p ps] eqn:Hpage; [done|].
    simpl. exists (imap Read.playlist_line (p :: ps)).
    split; [done|]. split; [by rewrite length_imap|].
    intros i playlist Hi. exists (Read.playlist_line i playlist).
    split; [by rewrite list_lookup_imap, Hi|].
    unfold Read.playlist_line, Read.tracksTotal. rewrite Nat.add_1_r. split.
    + rewrite <- append_assoc. apply startsWith_append.
    + intros Hmissing. do 5 apply includes_append_l.
      destruct (Read.optional Read.TracksRef.total
                  (Read.Playlist.tracks playlist)); try done;
        apply (includes_prefix3 " (" "0" " tracks) - ID: "
                 (Read.Playlist.id playlist)).
Qed.

Lemma playlists_listing_witness :
  ∃ lines,
    Read.run (Read.answering Read.sample_answers)
      (Read.getMyPlaylists_handler None) =
      Normal (text_result
        ("# Your Spotify Playlists" +:+ nl +:+ nl +:+ join nl lines))
    ∧ length lines = 2
    ∧ ∃ line,
        lines !! 1 = Some line
        ∧ includes line (" (0 tracks) - ID: ") = true.
Proof.
  destruct (playlists_listing (Read.answering Read.sample_answers) None
              (Read.Page.mk Read.sample_playlists 2%Z) eq_refl)
    as [_ Hsome].
  destruct Hsome as (lines & Hrun & Hlen & Hlines); [discriminate|].
  exists lines. split; [exact Hrun|]. split; [exact Hlen|].
  destruct (Hlines 1 _ eq_refl) as (line & Hline & _ & Hzero).
  exists line. split; [exact Hline | exact (Hzero eq_refl)].
Defined.

(** ** [getPlaylistTracks] *)








(** ** [getUsersSavedTracks] *)



(** ** [getRecentlyPlayed] *)

(** X19. The history has one line per item, numbered from one in the order
    of the page, and a track whose time of play is missing or empty is
    listed with [Played at: Unknown time]; with no item the text is
    [You don't have any recently played tracks on Spotify]. *)
Theorem recently_played_listing (remote : Read.collaborator Read.readE)
    (toLocaleString : string → string) (limit : option Z)
    (page : Read.Page.t Read.PlayHistory.t) :
  remote _ (Read.GetRecentlyPlayedTracks (default 50%Z limit)) = Normal page →
  (Read.Page.items page = [] →
   Read.run remote (Read.getRecentlyPlayed_handler toLocaleString limit) =
     Normal (text_result
       "You don't have any recently played tracks on Spotify"))
  ∧ (Read.Page.items page ≠ [] →
     ∃ lines,
       Read.run remote (Read.getRecentlyPlayed_handler toLocaleString limit) =
         Normal (text_result
           ("# Recently Played Tracks" +:+ nl +:+ nl +:+ join nl lines))
       ∧ length lines = length (Read.Page.items page)
       ∧ ∀ i item, Read.Page.items page !! i = Some item →
           ∃ line,
             lines !! i = Some line
             ∧ startsWith line (string_of_nat (S i) +:+ ". ") = true
             ∧ (Read.holds_track (Read.PlayHistory.track item) = true →
                string_or (Read.PlayHistory.played_at item) EmptyString
                  = EmptyString →
                ∃ pre, line = pre +:+ " - Played at: Unknown time")).
Proof.
  intros Hremote. unfold Read.getRecentlyPlayed_handler. simpl.
  rewrite Hremote. simpl. split; [by intros ->|].
  intros Hitems.
  destruct (Read.Page.items page) as [|item rest] eqn:Hpage; [done|]. simpl.
  exists (imap (Read.history_line toLocaleString) (item :: rest)).
  split; [done|]. split; [by rewrite length_imap|].
  intros i x Hi. eexists. split; [by rewrite list_lookup_imap, Hi|].
  unfold Read.history_line, Read.holds_track. rewrite Nat.add_1_r.
  destruct (Read.PlayHistory.track x) as [| |track];
    [| |destruct (Read.isTrack track)];
    (split;
     [rewrite startsWith_cancel;
      first [apply startsWith_append | reflexivity]|]);
    try done.
  intros _ Hplayed.
  exists (string_of_nat (S i) +:+ ". " +:+ dq +:+
          Read.PlayableItem.name track +:+
          dq +:+ " by " +:+ Read.item_artists track +:+ " (" +:+
          formatDuration (Read.PlayableItem.duration_ms track) +:+
          ") - ID: " +:+ Read.PlayableItem.id track).
  destruct (Read.PlayHistory.played_at x) as [| |[|c s]]; try done;
    rewrite !append_assoc; reflexivity.
Qed.

Lemma recently_played_listing_witness :
  ∃ lines,
    Read.run (Read.answering Read.sample_answers)
      (Read.getRecentlyPlayed_handler Read.sample_time None) =
      Normal (text_result
        ("# Recently Played Tracks" +:+ nl +:+ nl +:+ join nl lines))
    ∧ ∃ line pre,
        lines !! 1 = Some line
        ∧ startsWith line "2. " = true
        ∧ line = pre +:+ " - Played at: Unknown time".
Proof.
  destruct (recently_played_listing (Read.answering Read.sample_answers)
              Read.sample_time None (Read.Page.mk Read.sample_history 2%Z)
              eq_refl) as [_ Hsome].
  destruct Hsome as (lines & Hrun & _ & Hlines); [discriminate|].
  exists lines. split; [exact Hrun|].
  destruct (Hlines 1 _ eq_refl) as (line & Hline & Hnumber & Hunknown).
  destruct (Hunknown eq_refl eq_refl) as [pre Hpre].
  exists line, pre. split; [exact Hline|]. split; [exact Hnumber | exact Hpre].
Defined.

(** ** [getNowPlaying] *)

(** X20. [getNowPlaying] never raises: it settles on one text item whatever
    the remote call does, and when the call throws, the text is
    [Error getting current track: ] followed by the message. *)
Theorem now_playing_never_raises (remote : Read.collaborator Read.readE) :
  ∃ text,
    Read.run remote Read.getNowPlaying_handler = Normal (text_result text)
    ∧ ∀ error, remote _ Read.GetPlaybackState = Throw error →
        text = "Error getting current track: " +:+ error_text error.
Proof.
  unfold Read.getNowPlaying_handler. simpl.
  destruct (remote _ Read.GetPlaybackState) as [[| |playback]|error]; simpl.
  1,2: eexists; split; done.
  - destruct (Read.PlaybackState.item playback) as [| |item]; simpl.
    1,2: eexists; split; done.
    destruct (Read.isTrack item); simpl; eexists; split; done.
  - eexists. split; [reflexivity|]. by intros ? [= <-].
Qed.

Lemma now_playing_never_raises_witness :
  Read.run (Read.answering Read.failing_answers) Read.getNowPlaying_handler =
  Normal (text_result "Error getting current track: Bad OAuth request").
Proof.
  destruct (now_playing_never_raises (Read.answering Read.failing_answers))
    as (text & Hrun & Herror).
  rewrite Hrun. by rewrite (Herror (ErrorObject "Bad OAuth request") eq_refl).
Defined.

(** X21. Without a playback state, or without an item in it, the answer is
    [Nothing is currently playing on Spotify]; with an item that is not
    a track (its type is not [track], or it has no artists, no album or
    no album name, as an episode) the answer is
    [Currently playing item is not a track (might be a podcast episode)]. *)
Theorem now_playing_without_track (remote : Read.collaborator Read.readE)
    (playback : nullable Read.PlaybackState.t) :
  remote _ Read.GetPlaybackState = Normal playback →
  (falsy (Read.optional Read.PlaybackState.item playback) = true →
   Read.run remote Read.getNowPlaying_handler =
     Normal (text_result "Nothing is currently playing on Spotify"))
  ∧ ∀ item, Read.optional Read.PlaybackState.item playback = Value item →
      Read.PlayableItem.type item ≠ "track"
      ∨ falsy (Read.PlayableItem.artists item) = true
      ∨ falsy (Read.optional Read.AlbumRef.name (Read.PlayableItem.album item))
        = true →
      Read.run remote Read.getNowPlaying_handler =
        Normal (text_result
          "Currently playing item is not a track (might be a podcast episode)").
Proof.
  intros Hremote. unfold Read.getNowPlaying_handler. simpl.
  rewrite Hremote. simpl. split.
  - intros Hnone.
    destruct playback as [| |playback]; try done. simpl in *.
    by destruct (Read.PlaybackState.item playback).
  - intros item Hitem Hnot.
    destruct playback as [| |playback]; try done. simpl in *.
    rewrite Hitem.
    assert (Read.isTrack item = false) as ->; [|done].
    unfold Read.isTrack, Read.is_present.
    destruct Hnot as [Htype|[Hartists|Halbum]].
    + apply String.eqb_neq in Htype. by rewrite Htype.
    + rewrite Hartists. simpl. by rewrite andb_false_r.
    + destruct (Read.PlayableItem.album item) as [| |album];
        rewrite ?andb_false_r; try done.
      simpl in Halbum. rewrite Halbum. simpl. by rewrite andb_false_r.
Qed.

Lemma now_playing_without_track_witness :
  Read.run (Read.answering Read.sample_answers) Read.getNowPlaying_handler =
  Normal (text_result
    "Currently playing item is not a track (might be a podcast episode)").
Proof.
  destruct (now_playing_without_track (Read.answering Read.sample_answers)
              (Value (Read.PlaybackState.mk (Value Read.sample_episode)
                        (Value 1000%N) true (Value Read.sample_phone) false
                        (Value "off"))) eq_refl) as [_ Hepisode].
  apply (Hepisode Read.sample_episode eq_refl).
  left. discriminate.
Defined.

(** ** [test_audio_features] *)

(** X22. [test_audio_features] never raises, and it sorts what the remote
    call throws by the text of the error alone: a message that contains
    [403] or [Forbidden] anywhere gives the fixed access-denied text,
    which does not depend on the message; any other message is shown in
    the error text. *)
Theorem audio_features_errors (number : Type)
    (number_to_string : number → string)
    (remote : Read.collaborator (Read.audioE number)) (trackId : string) :
  ∃ text,
    Read.run remote (Read.testAudioFeatures_handler number number_to_string
                       trackId) = Normal (text_result text)
    ∧ ∀ error, remote _ (Read.TracksAudioFeatures trackId) = Throw error →
        (∀ pre post,
           error_text error = pre +:+ "403" +:+ post
           ∨ error_text error = pre +:+ "Forbidden" +:+ post →
           text = Read.access_denied_text)
        ∧ (includes (error_text error) "403" = false →
           includes (error_text error) "Forbidden" = false →
           text = Read.test_error_text (error_text error)).
Proof.
  unfold Read.testAudioFeatures_handler. simpl.
  destruct (remote _ (Read.TracksAudioFeatures trackId))
    as [[| |features]|error]; simpl.
  1-3: eexists; split; done.
  destruct (includes (error_text error) "403") eqn:H403;
    [|destruct (includes (error_text error) "Forbidden") eqn:Hforbidden];
    simpl; eexists; (split; [reflexivity|]); intros ? [= <-].
  - split; [done|]. by rewrite H403.
  - split; [done|]. by rewrite Hforbidden.
  - split; [|done].
    intros pre post [Hmessage|Hmessage]; rewrite Hmessage in *.
    + by rewrite includes_middle in H403.
    + by rewrite includes_middle in Hforbidden.
Qed.

Lemma audio_features_errors_witness :
  Read.run
    (Read.audio_answering (Throw (ErrorObject "No track with id 4031")))
    (Read.testAudioFeatures_handler Z string_of_Z "4031") =
  Normal (text_result Read.access_denied_text).
Proof.
  destruct (audio_features_errors Z string_of_Z
              (Read.audio_answering
                 (Throw (ErrorObject "No track with id 4031"))) "4031")
    as (text & Hrun & Herror).
  rewrite Hrun. f_equal. f_equal.
  destruct (Herror (ErrorObject "No track with id 4031") eq_refl)
    as [Hdenied _].
  apply (Hdenied "No track with id " "1"). left. reflexivity.
Defined.

(** ** The calls the tools make *)

(** X23. Every read tool makes exactly one remote call, whatever the call
    answers, and fills in what the caller left out: a search without a
    limit asks for ten results, the lists of playlists, playlist tracks,
    history and saved tracks for fifty, from offset zero; the limit of
    the queue is not sent, the queue is cut locally. *)
Theorem read_tools_make_one_call (remote : Read.collaborator Read.readE)
    (js : Read.Number.ops)
    (toLocaleDateString toLocaleString : string → string)
    (query playlistId : string) (type : Read.SearchType)
    (limit offset : option Z) :
  Read.requests remote (Read.searchSpotify_handler query type limit) =
    [ existT _ (Read.Search query [type] (default 10%Z limit)) ]
  ∧ Read.requests remote Read.getNowPlaying_handler =
      [ existT _ Read.GetPlaybackState ]
  ∧ Read.requests remote (Read.getMyPlaylists_handler limit) =
      [ existT _ (Read.Playlists (default 50%Z limit)) ]
  ∧ Read.requests remote
      (Read.getPlaylistTracks_handler js playlistId limit offset) =
      [ existT _ (Read.GetPlaylistItems playlistId (default 50%Z limit)
                    (default 0%Z offset)) ]
  ∧ Read.requests remote
      (Read.getRecentlyPlayed_handler toLocaleString limit) =
      [ existT _ (Read.GetRecentlyPlayedTracks (default 50%Z limit)) ]
  ∧ Read.requests remote
      (Read.getUsersSavedTracks_handler toLocaleDateString js limit offset) =
      [ existT _ (Read.SavedTracks (default 50%Z limit)
                    (default 0%Z offset)) ]
  ∧ Read.requests remote (Read.getQueue_handler limit) =
      [ existT _ Read.GetUsersQueue ]
  ∧ Read.requests remote Read.getAvailableDevices_handler =
      [ existT _ Read.GetAvailableDevices ].
Proof.
  repeat split.
  - unfold Read.searchSpotify_handler. simpl.
    by destruct (remote _ (Read.Search _ _ _)).
  - unfold Read.getNowPlaying_handler. simpl.
    destruct (remote _ Read.GetPlaybackState) as [[| |playback]|error];
      simpl; try done.
    destruct (Read.PlaybackState.item playback) as [| |item]; simpl;
      try done.
    by destruct (Read.isTrack item).
  - unfold Read.getMyPlaylists_handler. simpl.
    destruct (remote _ (Read.Playlists _)) as [page|error]; simpl;
      [|done].
    by destruct (length _ =? 0).
  - unfold Read.getPlaylistTracks_handler. simpl.
    destruct (remote _ (Read.GetPlaylistItems _ _ _)) as [page|error]; simpl;
      [|done].
    by destruct (Read.PlaylistItems.items page) as [| |[|item rest]].
  - unfold Read.getRecentlyPlayed_handler. simpl.
    destruct (remote _ (Read.GetRecentlyPlayedTracks _)) as [page|error];
      simpl; [|done].
    by destruct (length _ =? 0).
  - unfold Read.getUsersSavedTracks_handler. simpl.
    destruct (remote _ (Read.SavedTracks _ _)) as [page|error]; simpl;
      [|done].
    by destruct (length _ =? 0).
  - unfold Read.getQueue_handler. simpl.
    destruct (remote _ Read.GetUsersQueue) as [queue|error]; simpl;
      [|done].
    by destruct (length _ =? 0).
  - unfold Read.getAvailableDevices_handler. simpl.
    by destruct (remote _ Read.GetAvailableDevices)
      as [[[| |[|device rest]]]|error].
Qed.

(** ** The current track *)

(** X24. For a current item that is a track, [getNowPlaying] renders the
    title ([Playing] or [Paused]), an empty line, five lines on the
    track, an empty line and three lines on the playback. What is
    missing is filled in: no progress counts as zero, no device reads
    [Unknown device] with volume [N/A], a device without a volume reads
    [N/A] too, and no repeat state reads [off]. *)
Theorem now_playing_rendering (remote : Read.collaborator Read.readE)
    (playback : Read.PlaybackState.t) (item : Read.PlayableItem.t) :
  remote _ Read.GetPlaybackState = Normal (Value playback) →
  Read.PlaybackState.item playback = Value item →
  Read.isTrack item = true →
  ∃ album progress device volume repeat,
    Read.run remote Read.getNowPlaying_handler =
      Normal (text_result
        (join nl
           [ "# Currently " +:+
               (if Read.PlaybackState.is_playing playback
                then "Playing" else "Paused");
             EmptyString;
             "**Track**: " +:+ dq +:+ Read.PlayableItem.name item +:+ dq;
             "**Artist**: " +:+ Read.item_artists item;
             "**Album**: " +:+ album;
             "**Progress**: " +:+ progress +:+ " / " +:+
               formatDuration (Read.PlayableItem.duration_ms item);
             "**ID**: " +:+ Read.PlayableItem.id item;
             EmptyString;
             "**Device**: " +:+ device;
             "**Volume**: " +:+ volume;
             "**Shuffle**: " +:+
               (if Read.PlaybackState.shuffle_state playback
                then "On" else "Off") +:+
               " | **Repeat**: " +:+ repeat ]))
    ∧ Read.optional Read.AlbumRef.name (Read.PlayableItem.album item)
      = Value album
    ∧ (falsy (Read.PlaybackState.progress_ms playback) = true →
       progress = formatDuration 0)
    ∧ (falsy (Read.PlaybackState.device playback) = true →
       device = "Unknown device" ∧ volume = "N/A")
    ∧ (falsy (Read.optional Read.Device.volume_percent
                (Read.PlaybackState.device playback)) = true →
       volume = "N/A")
    ∧ (falsy (Read.PlaybackState.repeat_state playback) = true
       ∨ Read.PlaybackState.repeat_state playback = Value EmptyString →
       repeat = "off").
Proof.
  intros Hremote Hitem Htrack.
  assert (∃ album,
            Read.optional Read.AlbumRef.name (Read.PlayableItem.album item)
            = Value album) as [album Halbum].
  { unfold Read.isTrack, Read.is_present in Htrack.
    destruct (Read.PlayableItem.album item) as [| |ref];
      rewrite ?andb_false_r in Htrack; try done.
    simpl. destruct (Read.AlbumRef.name ref);
      rewrite ?andb_false_r in Htrack; by eauto. }
  exists album,
    (formatDuration
       (nullish_or (Read.PlaybackState.progress_ms playback) 0%N)),
    (match Read.PlaybackState.device playback with
     | Value device =>
         Read.Device.name device +:+ " (" +:+ Read.Device.type device +:+ ")"
     | _ => "Unknown device"
     end),
    (Read.playback_volume (Read.PlaybackState.device playback)),
    (string_or (Read.PlaybackState.repeat_state playback) "off").
  split.
  - unfold Read.getNowPlaying_handler. simpl. rewrite Hremote. simpl.
    rewrite Hitem, Htrack. simpl. rewrite Halbum. simpl.
    do 2 f_equal. flatten_lines. reflexivity.
  - split; [done|]. split.
    { by destruct (Read.PlaybackState.progress_ms playback). }
    split.
    { by destruct (Read.PlaybackState.device playback). }
    split.
    { unfold Read.playback_volume.
      by destruct (Read.optional _ (Read.PlaybackState.device playback)). }
    intros [Hrepeat| ->]; [|done].
    by destruct (Read.PlaybackState.repeat_state playback).
Qed.

Lemma now_playing_rendering_witness :
  ∃ album progress device volume repeat,
    Read.run (Read.answering Read.paused_answers) Read.getNowPlaying_handler =
      Normal (text_result
        (join nl
           [ "# Currently Paused";
             EmptyString;
             "**Track**: " +:+ dq +:+ "Cut To The Feeling" +:+ dq;
             "**Artist**: Carly Rae Jepsen";
             "**Album**: " +:+ album;
             "**Progress**: " +:+ progress +:+ " / 3:45";
             "**ID**: 11dFghVXANMlKmJXsNCbNl";
             EmptyString;
             "**Device**: " +:+ device;
             "**Volume**: " +:+ volume;
             "**Shuffle**: On | **Repeat**: " +:+ repeat ]))
    ∧ album = "Emotion: Side B" ∧ progress = "0:00"
    ∧ device = "Unknown device" ∧ volume = "N/A" ∧ repeat = "off".
Proof.
  destruct (now_playing_rendering (Read.answering Read.paused_answers)
              Read.paused_playback Read.sample_song
              eq_refl eq_refl eq_refl)
    as (album & progress & device & volume & repeat & Hrun & Halbum
        & Hprogress & Hdevice & _ & Hrepeat).
  exists album, progress, device, volume, repeat.
  split; [exact Hrun|].
  destruct (Hdevice eq_refl) as [-> ->].
  rewrite (Hprogress eq_refl), (Hrepeat (or_introl eq_refl)).
  injection Halbum as <-. repeat split; reflexivity.
Defined.
